(** * home-makers-mt: the idea board of [app.py]

    A shallow embedding of the database layer of [app.py] (the functions
    [get_conn], [add_idea], [has_voted], [toggle_vote], [delete_idea] and
    [fetch_ideas]) together with the SQLite statements they execute, and
    the properties of vote consistency and ranking proved about them.

    Modelling conventions.
    - A Python [str] is the list of its Unicode code points.
    - A row id is an unbounded integer ([Z]); SQLite's ceiling of 2^63-1
      on row ids is not modelled.
    - [CURRENT_TIMESTAMP] is read from the system clock by SQLite; every
      statement that stores it takes the reading as the argument [now], a
      number of seconds.  [datetime(created_at)] is the identity on such a
      reading and its textual order is the numeric order.
    - The connection is opened with [isolation_level=None]: every
      statement is its own transaction and a statement that fails leaves
      the database as it was.
    - SQLite enforces FOREIGN KEY clauses, [ON DELETE CASCADE] included,
      only on a connection whose [foreign_keys] pragma is on; on a new
      connection the pragma is off.  The pragma is a field of the
      connection, so that both behaviours can be stated. *)

From Stdlib Require Import String Ascii.
From Stdlib Require Import ZArith NArith List Bool Lia.
From Stdlib Require Import Permutation Sorted.
Import ListNotations.
Local Open Scope Z_scope.

(* ================================================================== *)
(** * Python values *)
(* ================================================================== *)

Module Py.

(** A [str]: the sequence of its code points. *)
Definition str := list N.

Definition str_eq_dec : forall a b : str, {a = b} + {a <> b} :=
  list_eq_dec N.eq_dec.

Definition eqb (a b : str) : bool :=
  if str_eq_dec a b then true else false.

(** A string literal of the source, written in ASCII. *)
Definition lit (s : string) : str :=
  map N_of_ascii (list_ascii_of_string s).

(** [str.isspace] on one character: the code points CPython's
    [_PyUnicode_IsWhitespace] accepts. *)
Definition isspace (c : N) : bool :=
  ((9 <=? c) && (c <=? 13) || (28 <=? c) && (c <=? 32)
   || (c =? 133) || (c =? 160) || (c =? 5760)
   || (8192 <=? c) && (c <=? 8202)
   || (c =? 8232) || (c =? 8233) || (c =? 8239) || (c =? 8287)
   || (c =? 12288))%N.

Fixpoint lstrip (s : str) : str :=
  match s with
  | [] => []
  | c :: s' => if isspace c then lstrip s' else s
  end.

Definition rstrip (s : str) : str := rev (lstrip (rev s)).

(** [s.strip()] with no argument. *)
Definition strip (s : str) : str := rstrip (lstrip s).

(** [content or ""], where [content] may be [None]. *)
Definition or_empty (content : option str) : str :=
  match content with
  | Some s => s
  | None => []
  end.

(** Truth value of a [str]: [not s] is true exactly for the empty one. *)
Definition truthy (s : str) : bool :=
  match s with [] => false | _ :: _ => true end.

(** The values the functions of the module return. *)
Inductive value : Type :=
| None_
| Bool (b : bool).

(** The exceptions of [sqlite3] the statements of the module can raise,
    with the constraint that failed. *)
Inductive constraint : Type :=
| CheckCategory      (* CHECK(category IN ('food','festival')) *)
| UniqueVote         (* UNIQUE(idea_id, user_id) *)
| ForeignKeyIdea.    (* FOREIGN KEY (idea_id) REFERENCES ideas(id) *)

Inductive exn : Type :=
| IntegrityError (c : constraint).

Inductive outcome (A : Type) : Type :=
| Return (a : A)
| Raise (e : exn).
Arguments Return {A} a.
Arguments Raise {A} e.

End Py.

(* ================================================================== *)
(** * The SQLite database *)
(* ================================================================== *)

Module Sql.

(** A row of [ideas]. *)
Record idea : Type := mk_idea {
  id : Z;
  category : Py.str;
  content : Py.str;
  votes_column : Z;          (* the legacy column [votes] *)
  created_at : Z
}.

(** A row of [votes]. *)
Record vote : Type := mk_vote {
  vote_id : Z;
  idea_id : Z;
  user_id : Py.str;
  vote_created_at : Z
}.

(** The database file seen through one connection: both tables, the
    two counters of [sqlite_sequence] kept for the AUTOINCREMENT keys,
    and the connection's [foreign_keys] pragma. *)
Record conn : Type := mk_conn {
  ideas : list idea;
  votes : list vote;
  seq_ideas : Z;
  seq_votes : Z;
  foreign_keys : bool
}.

(** A computation on the connection that returns or raises. *)
Definition M (A : Type) : Type := conn -> Py.outcome A * conn.

Definition ret {A} (a : A) : M A := fun c => (Py.Return a, c).

Definition bind {A B} (m : M A) (k : A -> M B) : M B :=
  fun c =>
    match m c with
    | (Py.Return a, c') => k a c'
    | (Py.Raise e, c') => (Py.Raise e, c')
    end.

(** [try: body / except sqlite3.IntegrityError: pass]. *)
Definition try_except_IntegrityError_pass (body : M unit) : M unit :=
  fun c =>
    match body c with
    | (Py.Return tt, c') => (Py.Return tt, c')
    | (Py.Raise (Py.IntegrityError _), c') => (Py.Return tt, c')
    end.

Definition max_id {R} (key : R -> Z) (rows : list R) : Z :=
  fold_right Z.max 0 (map key rows).

(** The key an AUTOINCREMENT column gives the next row: one more than
    the largest key the table has ever held. *)
Definition next_id {R} (key : R -> Z) (seq : Z) (rows : list R) : Z :=
  Z.max seq (max_id key rows) + 1.

Definition category_check (c : Py.str) : bool :=
  Py.eqb c (Py.lit "food") || Py.eqb c (Py.lit "festival").

(** [INSERT INTO ideas(category, content, votes) VALUES (?, ?, 0)] *)
Definition insert_idea (now : Z) (cat text : Py.str) : M unit :=
  fun c =>
    if category_check cat then
      let k := next_id id (seq_ideas c) (ideas c) in
      (Py.Return tt,
       mk_conn (ideas c ++ [mk_idea k cat text 0 now]) (votes c)
               k (seq_votes c) (foreign_keys c))
    else (Py.Raise (Py.IntegrityError Py.CheckCategory), c).

Definition vote_matches (i : Z) (u : Py.str) (v : vote) : bool :=
  (idea_id v =? i) && Py.eqb (user_id v) u.

(** [SELECT 1 FROM votes WHERE idea_id = ? AND user_id = ? LIMIT 1],
    then [fetchone() is not None]. *)
Definition select_one_vote (i : Z) (u : Py.str) (c : conn) : bool :=
  match firstn 1 (filter (vote_matches i u) (votes c)) with
  | [] => false
  | _ :: _ => true
  end.

(** [SELECT id FROM votes WHERE idea_id = ? AND user_id = ? LIMIT 1],
    then [fetchone()]. *)
Definition select_vote_id (i : Z) (u : Py.str) (c : conn) : option Z :=
  match firstn 1 (filter (vote_matches i u) (votes c)) with
  | [] => None
  | v :: _ => Some (vote_id v)
  end.

Definition idea_exists (i : Z) (c : conn) : bool :=
  existsb (fun r => id r =? i) (ideas c).

(** [INSERT INTO votes(idea_id, user_id) VALUES (?, ?)].  The UNIQUE
    constraint is always enforced; the FOREIGN KEY only when the
    connection's [foreign_keys] pragma is on. *)
Definition insert_vote (now : Z) (i : Z) (u : Py.str) : M unit :=
  fun c =>
    if existsb (vote_matches i u) (votes c) then
      (Py.Raise (Py.IntegrityError Py.UniqueVote), c)
    else if foreign_keys c && negb (idea_exists i c) then
      (Py.Raise (Py.IntegrityError Py.ForeignKeyIdea), c)
    else
      let k := next_id vote_id (seq_votes c) (votes c) in
      (Py.Return tt,
       mk_conn (ideas c) (votes c ++ [mk_vote k i u now])
               (seq_ideas c) k (foreign_keys c)).

(** [DELETE FROM votes WHERE id = ?] *)
Definition delete_vote (k : Z) : M unit :=
  fun c =>
    (Py.Return tt,
     mk_conn (ideas c) (filter (fun v => negb (vote_id v =? k)) (votes c))
             (seq_ideas c) (seq_votes c) (foreign_keys c)).

(** [DELETE FROM ideas WHERE id = ?].  [ON DELETE CASCADE] removes the
    votes of the deleted rows only when the connection's
    [foreign_keys] pragma is on. *)
Definition delete_idea_row (i : Z) : M unit :=
  fun c =>
    let cascade (vs : list vote) :=
      if foreign_keys c && idea_exists i c
      then filter (fun v => negb (idea_id v =? i)) vs
      else vs in
    (Py.Return tt,
     mk_conn (filter (fun r => negb (id r =? i)) (ideas c))
             (cascade (votes c))
             (seq_ideas c) (seq_votes c) (foreign_keys c)).

(** ** The query of [fetch_ideas] *)

(** [A LEFT JOIN B ON on]: every row of [A] with each matching row of
    [B], or with NULL when none matches. *)
Definition left_join {A B} (on : A -> B -> bool)
           (l : list A) (r : list B) : list (A * option B) :=
  flat_map (fun a =>
              match filter (on a) r with
              | [] => [(a, None)]
              | ms => map (fun b => (a, Some b)) ms
              end) l.

Definition count_votes (i : Z) (vs : list vote) : Z :=
  Z.of_nat (length (filter (fun v => idea_id v =? i) vs)).

(** [SELECT idea_id, COUNT( * ) AS cnt FROM votes GROUP BY idea_id] *)
Definition votes_by_idea (vs : list vote) : list (Z * Z) :=
  map (fun i => (i, count_votes i vs)) (nodup Z.eq_dec (map idea_id vs)).

(** [SELECT idea_id, 1 AS myvote FROM votes WHERE user_id = ?] *)
Definition my_votes (u : Py.str) (vs : list vote) : list (Z * Z) :=
  map (fun v => (idea_id v, 1))
      (filter (fun v => Py.eqb (user_id v) u) vs).

(** A row of the result set:
    [id, content, votes, created_at, i_voted]. *)
Record result_row : Type := mk_row {
  r_id : Z;
  r_content : Py.str;
  r_votes : Z;
  r_created_at : Z;
  r_i_voted : Z
}.

(** [COALESCE(v.cnt, 0)] *)
Definition coalesce0 (x : option (Z * Z)) : Z :=
  match x with Some (_, cnt) => cnt | None => 0 end.

(** [CASE WHEN my.myvote IS NULL THEN 0 ELSE 1 END] *)
Definition case_myvote (x : option (Z * Z)) : Z :=
  match x with Some _ => 1 | None => 0 end.

(** [ORDER BY votes DESC, datetime(i.created_at) ASC, i.id ASC], as
    the test "[a] may come before [b]".  [votes] names the result
    column [COALESCE(v.cnt, 0) AS votes]. *)
Definition order_leb (a b : result_row) : bool :=
  (r_votes b <? r_votes a)
  || (r_votes a =? r_votes b)
     && ((r_created_at a <? r_created_at b)
         || (r_created_at a =? r_created_at b) && (r_id a <=? r_id b)).

Fixpoint insert_sorted (x : result_row) (l : list result_row)
  : list result_row :=
  match l with
  | [] => [x]
  | y :: l' => if order_leb x y then x :: l else y :: insert_sorted x l'
  end.

Definition order_by (l : list result_row) : list result_row :=
  fold_right insert_sorted [] l.

(** The rows the SELECT of [fetch_ideas] produces, before ORDER BY. *)
Definition result_set (u cat : Py.str) (c : conn) : list result_row :=
  let v := votes_by_idea (votes c) in
  let my := my_votes u (votes c) in
  let joined :=
    left_join (fun (iv : idea * option (Z * Z)) (m : Z * Z) =>
                 fst m =? id (fst iv))
              (left_join (fun (i : idea) (g : Z * Z) => fst g =? id i)
                         (ideas c) v)
              my in
  let kept :=
    filter (fun '(i, _, _) => Py.eqb (category i) cat) joined in
  map (fun '(i, g, m) =>
         mk_row (id i) (content i) (coalesce0 g) (created_at i)
                (case_myvote m))
      kept.

Definition select_ideas (u cat : Py.str) (c : conn) : list result_row :=
  order_by (result_set u cat c).

End Sql.

(* ================================================================== *)
(** * The functions of [app.py] *)
(* ================================================================== *)

Module App.
Import Sql.

Notation "m ;;; k" := (bind m (fun _ => k))
  (at level 61, right associativity).

(** The database file a connection is opened on when [DB_PATH] does
    not exist yet. *)
Definition new_file : conn := mk_conn [] [] 0 0 false.

(** [get_conn]: [sqlite3.connect] opens the file (creating it when
    absent) on a connection whose [foreign_keys] pragma has SQLite's
    default, off.  The two pragmas issued, [journal_mode] and
    [synchronous], and the [CREATE ... IF NOT EXISTS] statements leave
    rows, counters and the [foreign_keys] pragma as they are. *)
Definition get_conn (file : option conn) : conn :=
  match file with
  | None => new_file
  | Some f =>
      mk_conn (ideas f) (votes f) (seq_ideas f) (seq_votes f) false
  end.

(** [get_lock]: a [threading.Lock], created unlocked. *)
Definition get_lock : bool := false.

(** [add_idea].  The body runs under [with lock]; the lock is part of
    the thread semantics of module [Threads]. *)
Definition add_idea (now : Z) (category : Py.str)
           (content : option Py.str) : M Py.value :=
  let content := Py.strip (Py.or_empty content) in
  if negb (Py.truthy content) then ret (Py.Bool false)
  else insert_idea now category content ;;; ret (Py.Bool true).

(** [has_voted] *)
Definition has_voted (idea_id : Z) (user_id : Py.str) (c : conn) : bool :=
  select_one_vote idea_id user_id c.

(** The [else] branch of [toggle_vote]: the INSERT inside
    [try ... except sqlite3.IntegrityError: pass]. *)
Definition toggle_vote_insert (now : Z) (idea_id : Z) (user_id : Py.str)
  : M unit :=
  try_except_IntegrityError_pass (insert_vote now idea_id user_id).

(** What [toggle_vote] does once the SELECT has answered [row]. *)
Definition toggle_vote_act (now : Z) (idea_id : Z) (user_id : Py.str)
           (row : option Z) : M unit :=
  match row with
  | Some k => delete_vote k
  | None => toggle_vote_insert now idea_id user_id
  end.

(** [toggle_vote]; it has no [return] statement. *)
Definition toggle_vote (now : Z) (idea_id : Z) (user_id : Py.str)
  : M Py.value :=
  fun c =>
    (toggle_vote_act now idea_id user_id (select_vote_id idea_id user_id c)
     ;;; ret Py.None_) c.

(** [delete_idea] *)
Definition delete_idea (idea_id : Z) : M Py.value :=
  delete_idea_row idea_id ;;; ret Py.None_.

(** An element of the list [fetch_ideas] returns: the dict with keys
    ["id"], ["content"], ["votes"], ["created_at"], ["i_voted"]. *)
Record item : Type := mk_item {
  item_id : Z;
  item_content : Py.str;
  item_votes : Z;
  item_created_at : Z;
  item_i_voted : bool
}.

(** [int(x or 0)] on an integer. *)
Definition int_or_0 (x : Z) : Z := if x =? 0 then 0 else x.

(** [bool(x)] on an integer. *)
Definition bool_of_int (x : Z) : bool := negb (x =? 0).

(** [fetch_ideas] *)
Definition fetch_ideas (category user_id : Py.str) (c : conn)
  : list item :=
  map (fun r =>
         mk_item (r_id r) (r_content r) (int_or_0 (r_votes r))
                 (r_created_at r) (bool_of_int (r_i_voted r)))
      (select_ideas user_id category c).

(** The state of the connection after a call, and what it returned. *)
Definition after {A} (m : M A) (c : conn) : conn := snd (m c).
Definition result {A} (m : M A) (c : conn) : Py.outcome A := fst (m c).

(** ** The operations as the callers use them *)

(** The two categories [render_category] is called with. *)
Inductive category_code : Type := FOOD | FESTIVAL.

Definition code (k : category_code) : Py.str :=
  match k with
  | FOOD => Py.lit "food"
  | FESTIVAL => Py.lit "festival"
  end.

(** A call of one of the three functions that write. *)
Inductive call : Type :=
| AddIdea (category : Py.str) (content : option Py.str)
| ToggleVote (idea_id : Z) (user_id : Py.str)
| DeleteIdea (idea_id : Z).

Definition run_call (now : Z) (k : call) : M Py.value :=
  match k with
  | AddIdea cat text => add_idea now cat text
  | ToggleVote i u => toggle_vote now i u
  | DeleteIdea i => delete_idea i
  end.

(** The states of the database the program can be in: the file starts
    absent, the program may be restarted on the file it left, and in
    between any of the three writing functions is called with any
    arguments at any clock reading.  ([has_voted] and [fetch_ideas]
    only read.) *)
Inductive reachable : conn -> Prop :=
| reach_new : reachable (get_conn None)
| reach_reopen c : reachable c -> reachable (get_conn (Some c))
| reach_call c now k : reachable c -> reachable (after (run_call now k) c).

(** [toggle_vote] called once per clock reading of [nows], in order. *)
Fixpoint toggle_times (nows : list Z) (idea_id : Z) (user_id : Py.str)
         (c : conn) : conn :=
  match nows with
  | [] => c
  | now :: rest =>
      toggle_times rest idea_id user_id
                   (after (toggle_vote now idea_id user_id) c)
  end.

(** Calls made one after another, each at its clock reading. *)
Fixpoint run_calls (ks : list (Z * call)) (c : conn) : conn :=
  match ks with
  | [] => c
  | (now, k) :: rest => run_calls rest (after (run_call now k) c)
  end.

End App.

(* ================================================================== *)
(** * Threads calling the writing functions *)
(* ================================================================== *)

(** Streamlit runs the script of every session on a thread of its own;
  all threads share the connection [conn] and the lock [lock].  A
  thread inside a call advances one statement at a time, and any
  thread that can advance may be the next to do so. *)
Module Threads.
Import Sql App.

(** Where a thread stands in its call. *)
Inductive pc : Type :=
| Ready (k : call)                          (* the call has not begun *)
| Holding (k : call)                        (* inside [with lock], before the first statement *)
| Selected (idea_id : Z) (user_id : Py.str) (row : option Z)
                                            (* [toggle_vote], after [fetchone] *)
| Leaving (r : Py.outcome Py.value)         (* statements done, lock not yet released *)
| Finished (r : Py.outcome Py.value).       (* the call returned or raised *)

Record config : Type := mk_config {
  store : conn;
  lock : bool;                              (* [true] while some thread holds it *)
  threads : list pc
}.

Definition blank (content : option Py.str) : bool :=
  negb (Py.truthy (Py.strip (Py.or_empty content))).

(** One step of a thread at clock reading [now]; [None] when the
    thread can not advance (it waits for the lock, or it is done). *)
Definition thread_step (now : Z) (p : pc) (l : bool) (c : conn)
  : option (pc * bool * conn) :=
  match p with
  | Ready (AddIdea cat text) =>
      if blank text then Some (Finished (Py.Return (Py.Bool false)), l, c)
      else if l then None
      else Some (Holding (AddIdea cat text), true, c)
  | Ready k =>
      if l then None else Some (Holding k, true, c)
  | Holding (AddIdea cat text) =>
      match insert_idea now cat (Py.strip (Py.or_empty text)) c with
      | (Py.Return _, c') => Some (Leaving (Py.Return (Py.Bool true)), l, c')
      | (Py.Raise e, c') => Some (Leaving (Py.Raise e), l, c')
      end
  | Holding (ToggleVote i u) =>
      Some (Selected i u (select_vote_id i u c), l, c)
  | Holding (DeleteIdea i) =>
      match delete_idea_row i c with
      | (Py.Return _, c') => Some (Leaving (Py.Return Py.None_), l, c')
      | (Py.Raise e, c') => Some (Leaving (Py.Raise e), l, c')
      end
  | Selected i u row =>
      match toggle_vote_act now i u row c with
      | (Py.Return _, c') => Some (Leaving (Py.Return Py.None_), l, c')
      | (Py.Raise e, c') => Some (Leaving (Py.Raise e), l, c')
      end
  | Leaving r => Some (Finished r, false, c)
  | Finished _ => None
  end.

Fixpoint set_nth {A} (n : nat) (x : A) (l : list A) : list A :=
  match l, n with
  | [], _ => []
  | _ :: l', O => x :: l'
  | y :: l', S n' => y :: set_nth n' x l'
  end.

(** Thread [n] advances at clock reading [now]. *)
Definition step (tick : nat * Z) (g : config) : option config :=
  let '(n, now) := tick in
  match nth_error (threads g) n with
  | None => None
  | Some p =>
      match thread_step now p (lock g) (store g) with
      | None => None
      | Some (p', l', c') => Some (mk_config c' l' (set_nth n p' (threads g)))
      end
  end.

(** A schedule: which thread advances at each tick, and the clock. *)
Fixpoint run (schedule : list (nat * Z)) (g : config) : option config :=
  match schedule with
  | [] => Some g
  | tick :: rest =>
      match step tick g with
      | None => None
      | Some g' => run rest g'
      end
  end.

(** The threads begin their calls on store [c] with the lock free. *)
Definition start (c : conn) (calls : list call) : config :=
  mk_config c get_lock (map Ready calls).

Definition finished (p : pc) : bool :=
  match p with Finished _ => true | _ => false end.

Definition all_finished (g : config) : bool :=
  forallb finished (threads g).

(** A thread is in its critical section from acquiring the lock to
    releasing it. *)
Definition critical (p : pc) : bool :=
  match p with
  | Holding _ | Selected _ _ _ | Leaving _ => true
  | Ready _ | Finished _ => false
  end.

Definition in_critical (g : config) : nat :=
  List.length (filter critical (threads g)).

(** ** The calls one after another *)

(** A thread seen from outside: its call is still to come, or it has
    taken effect with a result. *)
Inductive status : Type :=
| Pending (k : call)
| Done (r : Py.outcome Py.value).

Definition status_of (p : pc) : status :=
  match p with
  | Ready k | Holding k => Pending k
  | Selected i u _ => Pending (ToggleVote i u)
  | Leaving r | Finished r => Done r
  end.

(** Thread [n] runs its whole call at clock reading [now], alone. *)
Definition serial_step (tick : nat * Z) (s : conn * list status)
  : option (conn * list status) :=
  let '(n, now) := tick in
  match nth_error (snd s) n with
  | Some (Pending k) =>
      let '(r, c') := run_call now k (fst s) in
      Some (c', set_nth n (Done r) (snd s))
  | _ => None
  end.

Fixpoint serial_run (order : list (nat * Z)) (s : conn * list status)
  : option (conn * list status) :=
  match order with
  | [] => Some s
  | tick :: rest =>
      match serial_step tick s with
      | None => None
      | Some s' => serial_run rest s'
      end
  end.

Definition view (g : config) : conn * list status :=
  (store g, map status_of (threads g)).

(** What the lock guarantees at every moment: the lock is held exactly
    while one thread is in its critical section, a thread that has
    selected still sees the row it selected, and a thread inside
    [add_idea] has passed the test for blank text. *)
Record safe (g : config) : Prop := mk_safe {
  lock_holder : in_critical g = Nat.b2n (lock g);
  selected_current :
    forall n i u row,
      nth_error (threads g) n = Some (Selected i u row) ->
      row = select_vote_id i u (store g);
  holding_not_blank :
    forall n cat text,
      nth_error (threads g) n = Some (Holding (AddIdea cat text)) ->
      blank text = false
}.

Definition is_done (s : status) : bool :=
  match s with Done _ => true | Pending _ => false end.

(** The most steps a thread still has to take before its call is over. *)
Definition steps_left (p : pc) : nat :=
  match p with
  | Ready _ => 4
  | Holding _ => 3
  | Selected _ _ _ => 2
  | Leaving _ => 1
  | Finished _ => 0
  end.

Definition total_steps_left (g : config) : nat :=
  list_sum (map steps_left (threads g)).

End Threads.

(* ================================================================== *)
(** * Properties the proofs speak about *)
(* ================================================================== *)

Module Props.
Import Sql App.

(** The pair the UNIQUE constraint of [votes] is declared on. *)
Definition vote_key (v : vote) : Z * Py.str := (idea_id v, user_id v).

(** What holds of the database in every state the program reaches. *)
Record consistent (c : conn) : Prop := mk_consistent {
  pragma_off : foreign_keys c = false;
  unique_pairs : NoDup (map vote_key (votes c));
  unique_vote_ids : NoDup (map vote_id (votes c));
  unique_idea_ids : NoDup (map id (ideas c));
  idea_ids_assigned :
    Forall (fun r => 0 < id r <= seq_ideas c) (ideas c);
  vote_ids_assigned :
    Forall (fun v => 0 < vote_id v <= seq_votes c) (votes c);
  column_zero : Forall (fun r => votes_column r = 0) (ideas c);
  categories_checked :
    Forall (fun r => category_check (category r) = true) (ideas c);
  contents_not_empty :
    Forall (fun r => Py.truthy (content r) = true) (ideas c)
}.

(** The ranking key in the words of the specification: more votes
    first, then the earlier creation, then the lower id. *)
Definition ranks_before (a b : item) : Prop :=
  item_votes a > item_votes b
  \/ (item_votes a = item_votes b
      /\ (item_created_at a < item_created_at b
          \/ (item_created_at a = item_created_at b
              /\ item_id a <= item_id b))).


(** The row of the result set an idea gives when the UNIQUE constraint
    of [votes] holds. *)
Definition row_of (u : Py.str) (c : conn) (i : idea) : result_row :=
  mk_row (id i) (content i) (count_votes (id i) (votes c))
         (created_at i) (if has_voted (id i) u c then 1 else 0).

(** A string that neither begins nor ends with a whitespace character
    and is not empty. *)
Definition trimmed (s : Py.str) : Prop :=
  s <> []
  /\ (forall c r, s = c :: r -> Py.isspace c = false)
  /\ (forall c r, s = r ++ [c] -> Py.isspace c = false).

(** The number of sessions that hold a vote on idea [i]. *)
Definition voters (i : Z) (c : conn) : list Py.str :=
  nodup Py.str_eq_dec
        (map user_id (filter (fun v => idea_id v =? i) (votes c))).

End Props.

(* ================================================================== *)
(** * The page: [render_category] and the script around it *)
(* ================================================================== *)

(** Streamlit runs the whole script once for every interaction of a
    session: the widget that was used answers [True] (a button) or
    gives its text (the form) in that run only, and [st.rerun()] ends
    the run at once.  A run is modelled by what it does to the
    database, what it has drawn when it ends, and whether it ended by
    [st.rerun()].  [datetime.fromisoformat] is applied to timestamps
    SQLite wrote and is the identity on the clock readings of the
    model; layout calls ([st.container], [st.columns]) draw nothing. *)
Module Ui.
Import Sql App.

Notation "x <- m ;; k" := (bind m (fun x => k))
  (at level 61, m at next level, right associativity).

(** The widget that caused the run, if any. *)
Inductive trigger : Type :=
| Refresh                                         (* the auto-refresh timer *)
| Submit (k : category_code) (text : Py.str)      (* form [form_add_<k>] *)
| PressVote (k : category_code) (idea_id : Z)     (* button [vote_<k>_<id>] *)
| PressDelete (k : category_code) (idea_id : Z).  (* button [del_<k>_<id>] *)

(** What a run draws. *)
Inductive element : Type :=
| Title
| Subheader (k : category_code)
| Caption (k : category_code)
| TextInput (k : category_code)
| SubmitButton (k : category_code)
| Toast                                           (* the idea was added *)
| Warning                                         (* "enter some text" *)
| Divider
| Info                                            (* no idea yet *)
| Content (text : Py.str)
| Time (created_at : Z)
| Votes (n : Z)
| VoteButton (k : category_code) (idea_id : Z) (voted : bool)
| DeleteButton (k : category_code) (idea_id : Z)
| Footer.

Definition same_code (a b : category_code) : bool :=
  match a, b with
  | FOOD, FOOD | FESTIVAL, FESTIVAL => true
  | _, _ => false
  end.

(** [st.form_submit_button] and [st.text_input] of the form of [k]. *)
Definition submitted (ev : trigger) (k : category_code) : option Py.str :=
  match ev with
  | Submit k' text => if same_code k' k then Some text else None
  | _ => None
  end.

(** [st.button(..., key=f"vote_{k}_{id}")] *)
Definition vote_pressed (ev : trigger) (k : category_code) (i : Z) : bool :=
  match ev with
  | PressVote k' i' => same_code k' k && (i' =? i)
  | _ => false
  end.

(** [st.button(..., key=f"del_{k}_{id}")] *)
Definition delete_pressed (ev : trigger) (k : category_code) (i : Z)
  : bool :=
  match ev with
  | PressDelete k' i' => same_code k' k && (i' =? i)
  | _ => false
  end.

(** Truth value of what [add_idea] returned. *)
Definition truth (v : Py.value) : bool :=
  match v with
  | Py.Bool b => b
  | Py.None_ => false
  end.

(** The form of [render_category]: [if submitted: ok = add_idea(...)]. *)
Definition render_form (k : category_code) (now : Z) (ev : trigger)
  : M (list element * bool) :=
  match submitted ev k with
  | Some text =>
      ok <- add_idea now (code k) (Some text) ;;
      if truth ok then ret ([Toast], true) else ret ([Warning], false)
  | None => ret ([], false)
  end.

(** The loop [for idea in ideas] of [render_category]. *)
Fixpoint render_rows (k : category_code) (user : Py.str) (now : Z)
         (ev : trigger) (ideas : list item) : M (list element * bool) :=
  match ideas with
  | [] => ret ([], false)
  | e :: rest =>
      let shown := [Content (item_content e); Time (item_created_at e);
                    Votes (item_votes e);
                    VoteButton k (item_id e) (item_i_voted e)] in
      if vote_pressed ev k (item_id e) then
        _ <- toggle_vote now (item_id e) user ;; ret (shown, true)
      else if delete_pressed ev k (item_id e) then
        _ <- delete_idea (item_id e) ;;
        ret (shown ++ [DeleteButton k (item_id e)], true)
      else
        tail <- render_rows k user now ev rest ;;
        ret (shown ++ DeleteButton k (item_id e) :: fst tail, snd tail)
  end.

(** The list of [render_category]: [fetch_ideas], then [st.info] or the
    loop. *)
Definition render_list (k : category_code) (user : Py.str) (now : Z)
           (ev : trigger) : M (list element * bool) :=
  fun c =>
    match fetch_ideas (code k) user c with
    | [] => ret ([Info], false) c
    | ideas => render_rows k user now ev ideas c
    end.

(** [render_category], for the session whose [USER_ID] is [user]. *)
Definition render_category (k : category_code) (user : Py.str) (now : Z)
           (ev : trigger) : M (list element * bool) :=
  let head := [Subheader k; Caption k; TextInput k; SubmitButton k] in
  form <- render_form k now ev ;;
  if snd form then ret (head ++ fst form, true)
  else
    rows <- render_list k user now ev ;;
    ret (head ++ fst form ++ Divider :: fst rows, snd rows).

(** One run of the script: the title, [render_category("food")], then
    [render_category("festival")], then the footer. *)
Definition script (user : Py.str) (now : Z) (ev : trigger)
  : M (list element * bool) :=
  left <- render_category FOOD user now ev ;;
  if snd left then ret (Title :: fst left, true)
  else
    right <- render_category FESTIVAL user now ev ;;
    if snd right then ret (Title :: fst left ++ fst right, true)
    else ret (Title :: fst left ++ fst right ++ [Footer], false).

(** The states of the database the sessions can bring about through
    the page, one run of the script after another. *)
Inductive page_reachable : conn -> Prop :=
| page_new : page_reachable (get_conn None)
| page_reopen c : page_reachable c -> page_reachable (get_conn (Some c))
| page_run c user now ev :
    page_reachable c -> page_reachable (after (script user now ev) c).

(** The button of the list of [k] that was pressed, with the call it
    stands for. *)
Definition pressed (user : Py.str) (ev : trigger) (k : category_code)
  : option (Z * call) :=
  match ev with
  | PressVote k' i =>
      if same_code k' k then Some (i, ToggleVote i user) else None
  | PressDelete k' i =>
      if same_code k' k then Some (i, DeleteIdea i) else None
  | _ => None
  end.

(** The idea [i] has a row of buttons in the list of [k] drawn for
    [user]. *)
Definition listed (k : category_code) (user : Py.str) (i : Z) (c : conn)
  : bool :=
  existsb (fun e => item_id e =? i) (fetch_ideas (code k) user c).

(** The one call of a writing function a run makes, if it makes one. *)
Definition call_of (user : Py.str) (ev : trigger) (c : conn)
  : option call :=
  match ev with
  | Refresh => None
  | Submit k text => Some (AddIdea (code k) (Some text))
  | PressVote k i =>
      if listed k user i c then Some (ToggleVote i user) else None
  | PressDelete k i =>
      if listed k user i c then Some (DeleteIdea i) else None
  end.

(** What the loop of [render_category] draws for one idea when no
    button is pressed. *)
Definition row_elements (k : category_code) (e : item) : list element :=
  [Content (item_content e); Time (item_created_at e);
   Votes (item_votes e); VoteButton k (item_id e) (item_i_voted e);
   DeleteButton k (item_id e)].

(** What [render_category] draws when nothing was submitted or
    pressed. *)
Definition section_elements (k : category_code) (user : Py.str) (c : conn)
  : list element :=
  [Subheader k; Caption k; TextInput k; SubmitButton k; Divider]
  ++ match fetch_ideas (code k) user c with
     | [] => [Info]
     | ideas => flat_map (row_elements k) ideas
     end.

(** The two messages that answer a submitted form. *)
Definition is_feedback (el : element) : bool :=
  match el with
  | Toast | Warning => true
  | _ => false
  end.

(** Whether a run ends by [st.rerun()]. *)
Definition reruns (user : Py.str) (ev : trigger) (c : conn) : bool :=
  match ev with
  | Refresh => false
  | Submit _ text => Py.truthy (Py.strip text)
  | PressVote k i | PressDelete k i => listed k user i c
  end.

End Ui.

(* ================================================================== *)
(** * Boards used as examples *)
(* ================================================================== *)

Module Scenario.
Import Sql App Threads Ui.

Definition food : Py.str := code FOOD.
Definition pizza : Py.str := Py.lit "pizza".
Definition u1 : Py.str := Py.lit "session-1".
Definition u2 : Py.str := Py.lit "session-2".
Definition u3 : Py.str := Py.lit "session-3".
Definition u4 : Py.str := Py.lit "session-4".
Definition u5 : Py.str := Py.lit "session-5".

(** One idea, id 1, with the votes of three sessions. *)
Definition voted_idea : conn :=
  run_calls [(10, AddIdea food (Some pizza));
             (11, ToggleVote 1 u1); (12, ToggleVote 1 u2);
             (13, ToggleVote 1 u3)]
            (get_conn None).

(** Ideas A, B and C, created at [t1], [t2] and [t3] with ids 1, 2 and
    3, holding 3, 3 and 5 votes. *)
Definition abc_board (t1 t2 t3 : Z) : conn :=
  run_calls [(t1, AddIdea food (Some (Py.lit "A")));
             (t2, AddIdea food (Some (Py.lit "B")));
             (t3, AddIdea food (Some (Py.lit "C")));
             (50, ToggleVote 1 u1); (51, ToggleVote 1 u2);
             (52, ToggleVote 1 u3);
             (53, ToggleVote 2 u1); (54, ToggleVote 2 u2);
             (55, ToggleVote 2 u3);
             (56, ToggleVote 3 u1); (57, ToggleVote 3 u2);
             (58, ToggleVote 3 u3); (59, ToggleVote 3 u4);
             (60, ToggleVote 3 u5)]
            (get_conn None).

(** The only idea, of id 1, has just been deleted. *)
Definition deleted_idea : conn :=
  run_calls [(10, AddIdea food (Some pizza)); (11, DeleteIdea 1)]
            (get_conn None).

(** Session 1 has voted on id 1 while the board was empty. *)
Definition early_vote : conn :=
  run_calls [(10, ToggleVote 1 u1)] (get_conn None).

(** Two threads, each calling [toggle_vote(1, u1)] once. *)
Definition two_toggles (c : conn) (i : Z) (u : Py.str) : config :=
  start c [ToggleVote i u; ToggleVote i u].

(** Thread 0 runs its call to the end, then thread 1 does. *)
Definition one_then_other (t t' : Z) : list (nat * Z) :=
  [(0%nat, t); (0%nat, t); (0%nat, t); (0%nat, t);
   (1%nat, t'); (1%nat, t'); (1%nat, t'); (1%nat, t')].

(** Through the page: session 1 submits "pizza" under food, presses
    the vote button of the idea, and session 2 presses it too. *)
Definition page_board : conn :=
  after (script u2 12 (PressVote FOOD 1))
        (after (script u1 11 (PressVote FOOD 1))
               (after (script u1 10 (Submit FOOD pizza)) (get_conn None))).

End Scenario.

(* ================================================================== *)
(** * Facts about the statements *)
(* ================================================================== *)

Import Sql App Props.

Section Lists.
Context {A : Type}.

Lemma filter_nil_existsb (f : A -> bool) (l : list A) :
filter f l = [] <-> existsb f l = false.
Proof.
induction l as [|x l IH]; simpl; [tauto|].
destruct (f x); simpl; [split; discriminate | exact IH].
Qed.

Lemma filter_cons_existsb (f : A -> bool) (l : list A) x xs :
filter f l = x :: xs -> existsb f l = true.
Proof.
intros H. destruct (existsb f l) eqn:E; [reflexivity|].
apply filter_nil_existsb in E. congruence.
Qed.

Lemma filter_negb_none (f : A -> bool) (l : list A) :
existsb f l = false -> filter (fun x => negb (f x)) l = l.
Proof.
induction l as [|x l IH]; simpl; [reflexivity|].
destruct (f x); simpl; [discriminate|]. intros H. now rewrite IH.
Qed.

Lemma existsb_filter_negb (f : A -> bool) (l : list A) :
existsb f (filter (fun x => negb (f x)) l) = false.
Proof.
induction l as [|x l IH]; simpl; [reflexivity|].
destruct (f x) eqn:E; simpl; [exact IH|]. now rewrite E.
Qed.

Lemma NoDup_map_filter {B} (g : A -> B) (f : A -> bool) (l : list A) :
NoDup (map g l) -> NoDup (map g (filter f l)).
Proof.
induction l as [|x l IH]; simpl; intros H; [constructor|].
inversion H as [|? ? Hx Hl]; subst.
destruct (f x); simpl; [constructor|]; auto.
intros Hin. apply Hx. apply in_map_iff in Hin as (y & Hy & Hin).
apply filter_In in Hin as [Hin _]. apply in_map_iff. eauto.
Qed.

Lemma NoDup_snoc (l : list A) (x : A) :
NoDup l -> ~ In x l -> NoDup (l ++ [x]).
Proof.
intros Hl Hx. apply NoDup_app; [ exact Hl | repeat constructor; intros [] | ].
intros y Hy [<-|[]]. contradiction.
Qed.

Lemma Forall_snoc (P : A -> Prop) (l : list A) (x : A) :
Forall P l -> P x -> Forall P (l ++ [x]).
Proof. intros Hl Hx. apply Forall_app. split; auto. Qed.

Lemma Forall_filter (P : A -> Prop) (f : A -> bool) (l : list A) :
Forall P l -> Forall P (filter f l).
Proof.
rewrite !Forall_forall. intros H x Hx.
apply filter_In in Hx as [Hx _]. auto.
Qed.

Lemma max_id_ge (key : A -> Z) (rows : list A) (r : A) :
In r rows -> key r <= max_id key rows.
Proof.
unfold max_id. induction rows as [|y rows IH]; simpl; [tauto|].
intros [->|H]; [lia|]. specialize (IH H). lia.
Qed.

Lemma next_id_fresh (key : A -> Z) (seq : Z) (rows : list A) :
~ In (next_id key seq rows) (map key rows).
Proof.
intros H. apply in_map_iff in H as (r & Hk & Hr).
apply (max_id_ge key) in Hr. unfold next_id in Hk. lia.
Qed.

Lemma next_id_above (key : A -> Z) (seq : Z) (rows : list A) :
seq < next_id key seq rows
/\ forall r, In r rows -> key r < next_id key seq rows.
Proof.
unfold next_id. split; [lia|].
intros r Hr. apply (max_id_ge key) in Hr. lia.
Qed.

Lemma max_id_nonneg (key : A -> Z) (rows : list A) : 0 <= max_id key rows.
Proof.
unfold max_id. induction rows as [|y rows IH]; simpl; lia.
Qed.

End Lists.

Section Statements.

Lemma eqb_eq (a b : Py.str) : Py.eqb a b = true <-> a = b.
Proof.
unfold Py.eqb. destruct (Py.str_eq_dec a b); split; congruence.
Qed.

Lemma eqb_refl (a : Py.str) : Py.eqb a a = true.
Proof. now apply eqb_eq. Qed.

Lemma vote_matches_key (i : Z) (u : Py.str) (v : vote) :
vote_matches i u v = true <-> vote_key v = (i, u).
Proof.
unfold vote_matches, vote_key.
rewrite andb_true_iff, Z.eqb_eq, eqb_eq.
split; [intros [-> ->]; reflexivity | intros [= -> ->]; auto].
Qed.

Lemma existsb_vote_matches (i : Z) (u : Py.str) (vs : list vote) :
existsb (vote_matches i u) vs = true <-> In (i, u) (map vote_key vs).
Proof.
rewrite existsb_exists, in_map_iff.
split; intros (v & H1 & H2); exists v.
- apply vote_matches_key in H2. auto.
- split; [assumption | now apply vote_matches_key].
Qed.

Lemma has_voted_existsb (i : Z) (u : Py.str) (c : conn) :
has_voted i u c = existsb (vote_matches i u) (votes c).
Proof.
unfold has_voted, select_one_vote.
destruct (filter (vote_matches i u) (votes c)) as [|v l] eqn:E; simpl.
- symmetry. now apply filter_nil_existsb.
- symmetry. eapply filter_cons_existsb; eassumption.
Qed.

Lemma has_voted_iff (i : Z) (u : Py.str) (c : conn) :
has_voted i u c = true
<-> exists v, In v (votes c) /\ idea_id v = i /\ user_id v = u.
Proof.
rewrite has_voted_existsb, existsb_exists.
split; intros (v & Hv & H); exists v; split; auto.
- apply vote_matches_key in H. now inversion H.
- apply vote_matches_key. destruct H as [<- <-]. reflexivity.
Qed.

Lemma select_vote_id_None (i : Z) (u : Py.str) (c : conn) :
select_vote_id i u c = None <-> has_voted i u c = false.
Proof.
unfold has_voted, select_vote_id, select_one_vote.
destruct (filter (vote_matches i u) (votes c)); simpl;
  split; congruence.
Qed.

Lemma select_vote_id_Some (i : Z) (u : Py.str) (c : conn) (k : Z) :
select_vote_id i u c = Some k ->
has_voted i u c = true
/\ exists v, In v (votes c) /\ vote_key v = (i, u) /\ vote_id v = k.
Proof.
unfold has_voted, select_vote_id, select_one_vote.
destruct (filter (vote_matches i u) (votes c)) as [|v l] eqn:E; simpl;
  [discriminate|].
intros [= <-]. split; [reflexivity|].
assert (H : In v (filter (vote_matches i u) (votes c)))
  by (rewrite E; now left).
apply filter_In in H as [H1 H2]. apply vote_matches_key in H2. eauto.
Qed.

(** Under the UNIQUE constraint, deleting the vote the SELECT found
  leaves the pair without a vote. *)
Lemma delete_found_vote (i : Z) (u : Py.str) (vs : list vote) (v : vote) :
NoDup (map vote_key vs) -> In v vs -> vote_key v = (i, u) ->
existsb (vote_matches i u)
        (filter (fun w => negb (vote_id w =? vote_id v)) vs) = false.
Proof.
intros Hnd Hv Hk.
destruct (existsb _ _) eqn:E; [|reflexivity].
apply existsb_exists in E as (w & Hw & Hm).
apply filter_In in Hw as [Hw Hne].
apply vote_matches_key in Hm.
assert (w = v).
{ clear Hne. induction vs as [|x vs IH]; simpl in *; [tauto|].
  inversion Hnd as [|? ? Hx Hnd']; subst.
  destruct Hw as [->|Hw], Hv as [->|Hv]; auto.
  - exfalso. apply Hx. rewrite Hm, <- Hk. now apply in_map.
  - exfalso. apply Hx. rewrite Hk, <- Hm. now apply in_map. }
subst w. rewrite Z.eqb_refl in Hne. discriminate.
Qed.

(** ** The state invariant is kept by every statement *)

Lemma consistent_new : consistent new_file.
Proof. constructor; simpl; auto using NoDup_nil. Qed.

Lemma consistent_get_conn (file : option conn) :
(forall f, file = Some f -> consistent f) -> consistent (get_conn file).
Proof.
destruct file as [f|]; simpl; intros H; [|apply consistent_new].
destruct (H f eq_refl). constructor; simpl; auto.
Qed.

Lemma consistent_insert_idea now cat text c :
consistent c -> Py.truthy text = true ->
consistent (after (insert_idea now cat text) c).
Proof.
intros [] Ht. unfold after, insert_idea.
destruct (category_check cat) eqn:Ecat; simpl; [|constructor; assumption].
pose proof (next_id_above id (seq_ideas c) (ideas c)) as [Hseq Hrows].
constructor; simpl; auto.
- rewrite map_app. simpl. apply NoDup_snoc; [assumption|].
  apply next_id_fresh.
- apply Forall_snoc; simpl.
  + rewrite Forall_forall in *. intros r Hr.
    specialize (idea_ids_assigned0 r Hr). lia.
  + pose proof (max_id_nonneg id (ideas c)). unfold next_id. lia.
- apply Forall_snoc; auto.
- apply Forall_snoc; auto.
- apply Forall_snoc; auto.
Qed.

Lemma consistent_insert_vote now i u c :
consistent c -> consistent (after (insert_vote now i u) c).
Proof.
intros []. unfold after, insert_vote.
destruct (existsb (vote_matches i u) (votes c)) eqn:Ex; simpl;
  [constructor; assumption|].
rewrite pragma_off0. simpl.
pose proof (next_id_above vote_id (seq_votes c) (votes c)) as [Hseq Hrows].
constructor; simpl; auto.
- rewrite map_app. simpl. apply NoDup_snoc; [assumption|].
  intros Hin. change (In (i, u) (map vote_key (votes c))) in Hin.
  apply existsb_vote_matches in Hin. congruence.
- rewrite map_app. simpl. apply NoDup_snoc; [assumption|].
  apply next_id_fresh.
- apply Forall_snoc; simpl.
  + rewrite Forall_forall in *. intros r Hr.
    specialize (vote_ids_assigned0 r Hr). lia.
  + pose proof (max_id_nonneg vote_id (votes c)). unfold next_id. lia.
Qed.

Lemma consistent_delete_vote k c :
consistent c -> consistent (after (delete_vote k) c).
Proof.
intros []. unfold after, delete_vote.
constructor; simpl; auto using NoDup_map_filter, Forall_filter.
Qed.

Lemma consistent_delete_idea_row i c :
consistent c -> consistent (after (delete_idea_row i) c).
Proof.
intros []. unfold after, delete_idea_row. rewrite pragma_off0.
constructor; simpl; auto using NoDup_map_filter, Forall_filter.
Qed.

End Statements.

(* ================================================================== *)
(** * Facts about the functions *)
(* ================================================================== *)

Section Functions.

Lemma toggle_vote_insert_returns now i u c :
exists c', toggle_vote_insert now i u c = (Py.Return tt, c').
Proof.
unfold toggle_vote_insert, try_except_IntegrityError_pass.
destruct (insert_vote now i u c) as [[[]|[k]] c']; eauto.
Qed.

(** [toggle_vote] returns [None], whatever the state. *)
Lemma toggle_vote_result now i u c :
result (toggle_vote now i u) c = Py.Return Py.None_.
Proof.
unfold result, toggle_vote, bind, toggle_vote_act.
destruct (select_vote_id i u c) as [k|]; simpl; [reflexivity|].
destruct (toggle_vote_insert_returns now i u c) as [c' ->]. reflexivity.
Qed.

Lemma toggle_vote_absent now i u c :
has_voted i u c = false -> foreign_keys c = false ->
toggle_vote now i u c =
(Py.Return Py.None_,
 mk_conn (ideas c)
         (votes c ++ [mk_vote (next_id vote_id (seq_votes c) (votes c))
                              i u now])
         (seq_ideas c) (next_id vote_id (seq_votes c) (votes c))
         (foreign_keys c)).
Proof.
intros Hv Hfk. pose proof Hv as Hs. apply select_vote_id_None in Hs.
rewrite has_voted_existsb in Hv.
unfold toggle_vote, bind, toggle_vote_act, toggle_vote_insert,
  try_except_IntegrityError_pass, insert_vote.
rewrite Hs, Hv, Hfk. reflexivity.
Qed.

Lemma toggle_vote_present now i u c k :
select_vote_id i u c = Some k ->
toggle_vote now i u c =
(Py.Return Py.None_,
 mk_conn (ideas c) (filter (fun v => negb (vote_id v =? k)) (votes c))
         (seq_ideas c) (seq_votes c) (foreign_keys c)).
Proof.
intros Hs. unfold toggle_vote, bind, toggle_vote_act. rewrite Hs.
reflexivity.
Qed.

Lemma consistent_toggle_vote now i u c :
consistent c -> consistent (after (toggle_vote now i u) c).
Proof.
intros Hc. unfold after, toggle_vote, bind, toggle_vote_act.
destruct (select_vote_id i u c) as [k|].
- apply (consistent_delete_vote k) in Hc. unfold after in Hc.
  destruct (delete_vote k c) as [[[]|e] c']; exact Hc.
- apply (consistent_insert_vote now i u) in Hc. unfold after in Hc.
  unfold toggle_vote_insert, try_except_IntegrityError_pass.
  destruct (insert_vote now i u c) as [[[]|[e]] c']; exact Hc.
Qed.

Lemma consistent_add_idea now cat text c :
consistent c -> consistent (after (add_idea now cat text) c).
Proof.
intros Hc. unfold after, add_idea.
destruct (Py.truthy (Py.strip (Py.or_empty text))) eqn:Et; simpl;
  [|exact Hc].
apply (consistent_insert_idea now cat _ c Hc) in Et. unfold after in Et.
unfold bind. destruct (insert_idea now cat _ c) as [[[]|e] c']; exact Et.
Qed.

Lemma consistent_delete_idea i c :
consistent c -> consistent (after (delete_idea i) c).
Proof.
intros Hc. apply (consistent_delete_idea_row i) in Hc.
unfold after, delete_idea, bind in *.
destruct (delete_idea_row i c) as [[[]|e] c']; exact Hc.
Qed.

Lemma consistent_run_call now k c :
consistent c -> consistent (after (run_call now k) c).
Proof.
destruct k; simpl;
  auto using consistent_add_idea, consistent_toggle_vote,
             consistent_delete_idea.
Qed.

(** Every reachable state is consistent. *)
Lemma reachable_consistent c : reachable c -> consistent c.
Proof.
induction 1 as [|c Hr IH|c now k Hr IH].
- apply consistent_get_conn. discriminate.
- apply consistent_get_conn. now intros f [= <-].
- now apply consistent_run_call.
Qed.

(** One call of [toggle_vote] flips the answer of [has_voted]. *)
Lemma toggle_vote_flips now i u c :
consistent c ->
has_voted i u (after (toggle_vote now i u) c) = negb (has_voted i u c).
Proof.
intros Hc. unfold after.
destruct (select_vote_id i u c) as [k|] eqn:Hs.
- rewrite (toggle_vote_present now _ _ _ _ Hs). simpl.
  apply select_vote_id_Some in Hs as (Hv & v & Hin & Hk & <-).
  rewrite Hv, has_voted_existsb. simpl.
  apply delete_found_vote; auto. apply Hc.
- apply select_vote_id_None in Hs.
  rewrite (toggle_vote_absent now _ _ _ Hs (pragma_off c Hc)). simpl.
  rewrite Hs, has_voted_existsb. simpl.
  rewrite existsb_app. simpl. unfold vote_matches at 2. simpl.
  rewrite Z.eqb_refl, eqb_refl. apply orb_true_r.
Qed.

Lemma toggle_times_consistent nows i u c :
consistent c -> consistent (toggle_times nows i u c).
Proof.
revert c. induction nows as [|now nows IH]; simpl; intros c Hc; auto.
apply IH. now apply consistent_toggle_vote.
Qed.

Lemma toggle_times_flips nows i u c :
consistent c ->
has_voted i u (toggle_times nows i u c)
= xorb (has_voted i u c) (Nat.odd (List.length nows)).
Proof.
revert c. induction nows as [|now nows IH]; intros c Hc.
- simpl. now rewrite xorb_false_r.
- cbn [toggle_times List.length].
  rewrite IH by now apply consistent_toggle_vote.
  rewrite toggle_vote_flips by exact Hc.
  rewrite Nat.odd_succ, <- Nat.negb_odd.
  destruct (has_voted i u c), (Nat.odd (List.length nows)); reflexivity.
Qed.

End Functions.

(* ================================================================== *)
(** * Facts about the query of [fetch_ideas] *)
(* ================================================================== *)

Section Ordering.

Lemma order_leb_total a b : order_leb a b = true \/ order_leb b a = true.
Proof.
unfold order_leb.
destruct (Z.ltb_spec (r_votes b) (r_votes a)),
         (Z.ltb_spec (r_votes a) (r_votes b)),
         (Z.eqb_spec (r_votes a) (r_votes b)),
         (Z.eqb_spec (r_votes b) (r_votes a)),
         (Z.ltb_spec (r_created_at a) (r_created_at b)),
         (Z.ltb_spec (r_created_at b) (r_created_at a)),
         (Z.eqb_spec (r_created_at a) (r_created_at b)),
         (Z.eqb_spec (r_created_at b) (r_created_at a)),
         (Z.leb_spec (r_id a) (r_id b)),
         (Z.leb_spec (r_id b) (r_id a));
  simpl; auto; lia.
Qed.

Lemma order_leb_trans a b c :
order_leb a b = true -> order_leb b c = true -> order_leb a c = true.
Proof.
unfold order_leb.
destruct (Z.ltb_spec (r_votes b) (r_votes a)),
         (Z.ltb_spec (r_votes c) (r_votes b)),
         (Z.ltb_spec (r_votes c) (r_votes a)),
         (Z.eqb_spec (r_votes a) (r_votes b)),
         (Z.eqb_spec (r_votes b) (r_votes c)),
         (Z.eqb_spec (r_votes a) (r_votes c)),
         (Z.ltb_spec (r_created_at a) (r_created_at b)),
         (Z.ltb_spec (r_created_at b) (r_created_at c)),
         (Z.ltb_spec (r_created_at a) (r_created_at c)),
         (Z.eqb_spec (r_created_at a) (r_created_at b)),
         (Z.eqb_spec (r_created_at b) (r_created_at c)),
         (Z.eqb_spec (r_created_at a) (r_created_at c)),
         (Z.leb_spec (r_id a) (r_id b)),
         (Z.leb_spec (r_id b) (r_id c)),
         (Z.leb_spec (r_id a) (r_id c));
  simpl; intros; try reflexivity; try discriminate; lia.
Qed.

Lemma insert_sorted_perm x l : Permutation (insert_sorted x l) (x :: l).
Proof.
induction l as [|y l IH]; simpl; [reflexivity|].
destruct (order_leb x y); [reflexivity|].
rewrite IH. apply perm_swap.
Qed.

Lemma order_by_perm l : Permutation (order_by l) l.
Proof.
induction l as [|x l IH]; simpl; [reflexivity|].
rewrite insert_sorted_perm. now constructor.
Qed.

Lemma insert_sorted_sorted x l :
StronglySorted (fun a b => order_leb a b = true) l ->
StronglySorted (fun a b => order_leb a b = true) (insert_sorted x l).
Proof.
induction 1 as [|y l Hl IH Hy]; simpl.
- repeat constructor.
- destruct (order_leb x y) eqn:E.
  + constructor; [now constructor|]. constructor; [exact E|].
    rewrite Forall_forall in *. intros z Hz.
    eapply order_leb_trans; eauto.
  + constructor; [exact IH|].
    rewrite Forall_forall in *. intros z Hz.
    apply (Permutation_in _ (insert_sorted_perm x l)) in Hz.
    destruct Hz as [<-|Hz]; auto.
    destruct (order_leb_total x y); congruence.
Qed.

Lemma order_by_sorted l :
StronglySorted (fun a b => order_leb a b = true) (order_by l).
Proof.
induction l as [|x l IH]; simpl; [constructor|].
now apply insert_sorted_sorted.
Qed.

Lemma order_by_In r l : In r (order_by l) <-> In r l.
Proof.
split; apply Permutation_in;
  [apply order_by_perm | symmetry; apply order_by_perm].
Qed.

Lemma order_leb_antisym a b :
  order_leb a b = true -> order_leb b a = true -> r_id a = r_id b.
Proof.
  unfold order_leb.
  destruct (Z.ltb_spec (r_votes b) (r_votes a)),
           (Z.ltb_spec (r_votes a) (r_votes b)),
           (Z.eqb_spec (r_votes a) (r_votes b)),
           (Z.eqb_spec (r_votes b) (r_votes a)),
           (Z.ltb_spec (r_created_at a) (r_created_at b)),
           (Z.ltb_spec (r_created_at b) (r_created_at a)),
           (Z.eqb_spec (r_created_at a) (r_created_at b)),
           (Z.eqb_spec (r_created_at b) (r_created_at a)),
           (Z.leb_spec (r_id a) (r_id b)),
           (Z.leb_spec (r_id b) (r_id a));
    simpl; intros; try discriminate; lia.
Qed.

(** Rows with distinct ids have one sorted arrangement only. *)
Lemma sorted_arrangement_unique (l1 l2 : list result_row) :
  NoDup (map r_id l1) -> Permutation l1 l2 ->
  StronglySorted (fun a b => order_leb a b = true) l1 ->
  StronglySorted (fun a b => order_leb a b = true) l2 ->
  l1 = l2.
Proof.
  revert l2. induction l1 as [|a l1 IH]; intros l2 Hnd Hp H1 H2.
  - apply Permutation_nil in Hp. now subst.
  - destruct l2 as [|b l2].
    { symmetry in Hp. apply Permutation_nil in Hp. discriminate. }
    inversion H1 as [|? ? H1' Ha]; subst.
    inversion H2 as [|? ? H2' Hb]; subst.
    inversion Hnd as [|? ? Hnotin Hnd']; subst.
    rewrite Forall_forall in Ha, Hb.
    assert (Hab : a = b).
    { assert (Hin1 : In a (b :: l2))
        by (apply (Permutation_in _ Hp); now left).
      assert (Hin2 : In b (a :: l1))
        by (apply (Permutation_in _ (Permutation_sym Hp)); now left).
      destruct Hin1 as [->|Hin1]; [reflexivity|].
      destruct Hin2 as [->|Hin2]; [reflexivity|].
      exfalso. apply Hnotin.
      rewrite (order_leb_antisym a b (Ha b Hin2) (Hb a Hin1)).
      now apply in_map. }
    subst b. f_equal. apply IH; auto.
    now apply Permutation_cons_inv in Hp.
Qed.

(** Whatever way SQLite sorts, [ORDER BY] on rows with distinct ids
    gives the list [order_by] computes. *)
Lemma order_by_unique (l sorted : list result_row) :
  NoDup (map r_id l) -> Permutation l sorted ->
  StronglySorted (fun a b => order_leb a b = true) sorted ->
  sorted = order_by l.
Proof.
  intros Hnd Hp Hs. symmetry.
  apply sorted_arrangement_unique; auto using order_by_sorted.
  - apply (Permutation_NoDup (l := map r_id l)); [|assumption].
    apply Permutation_map. symmetry. apply order_by_perm.
  - rewrite order_by_perm. assumption.
Qed.

End Ordering.

Section Joins.

Lemma in_left_join {A B} (on : A -> B -> bool) (l : list A) (r : list B)
    (a : A) (m : option B) :
In (a, m) (left_join on l r)
<-> In a l
    /\ ((m = None /\ existsb (on a) r = false)
        \/ exists b, m = Some b /\ In b r /\ on a b = true).
Proof.
unfold left_join. rewrite in_flat_map. split.
- intros (x & Hx & Hin).
  destruct (filter (on x) r) as [|b0 bs] eqn:E.
  + destruct Hin as [[= <- <-]|[]]. split; [assumption|]. left.
    split; [reflexivity | now apply filter_nil_existsb].
  + apply in_map_iff in Hin as (b & [= <- <-] & Hb).
    rewrite <- E in Hb. apply filter_In in Hb as [Hb Hon]. eauto 6.
- intros (Ha & [[-> Hex]|(b & -> & Hb & Hon)]); exists a; split; auto.
  + apply filter_nil_existsb in Hex. rewrite Hex. now left.
  + assert (Hin : In b (filter (on a) r)) by (apply filter_In; auto).
    destruct (filter (on a) r) as [|b0 bs]; [contradiction|].
    apply in_map_iff. eauto.
Qed.

Lemma count_votes_zero i vs :
~ In i (map idea_id vs) -> count_votes i vs = 0.
Proof.
intros H. unfold count_votes.
replace (filter (fun v => idea_id v =? i) vs) with (@nil vote);
  [reflexivity|].
symmetry. apply filter_nil_existsb.
destruct (existsb _ vs) eqn:E; [|reflexivity].
apply existsb_exists in E as (v & Hv & Heq). apply Z.eqb_eq in Heq.
exfalso. apply H. rewrite <- Heq. now apply in_map.
Qed.

(** [COALESCE(v.cnt, 0)] over the first join is the number of vote
  rows of the idea. *)
Lemma join_count (i : idea) (g : option (Z * Z)) l vs :
In (i, g) (left_join (fun (i : idea) (g : Z * Z) => fst g =? id i)
                     l (votes_by_idea vs)) ->
In i l /\ coalesce0 g = count_votes (id i) vs.
Proof.
intros H. apply in_left_join in H as (Hi & H). split; [assumption|].
destruct H as [[-> Hex]|([k n] & -> & Hb & Hon)]; simpl in *.
- symmetry. apply count_votes_zero. intros Hin.
  assert (E : existsb (fun g : Z * Z => fst g =? id i)
                      (votes_by_idea vs) = true); [|congruence].
  apply existsb_exists. exists (id i, count_votes (id i) vs).
  split; [|apply Z.eqb_refl].
  unfold votes_by_idea. apply in_map_iff. exists (id i).
  split; [reflexivity | now apply nodup_In].
- apply Z.eqb_eq in Hon. subst k.
  unfold votes_by_idea in Hb.
  apply in_map_iff in Hb as (k & [= <- <-] & _). reflexivity.
Qed.

(** [CASE WHEN my.myvote IS NULL ...] over the second join says
  whether the user has a vote row on the idea. *)
Lemma join_myvote {G} (x : idea * G) (m : option (Z * Z)) l u (c : conn) :
In (x, m) (left_join (fun (iv : idea * G) (m : Z * Z) =>
                        fst m =? id (fst iv))
                     l (my_votes u (votes c))) ->
In x l /\ bool_of_int (case_myvote m) = has_voted (id (fst x)) u c.
Proof.
intros H. apply in_left_join in H as (Hi & H). split; [assumption|].
rewrite has_voted_existsb.
destruct H as [[-> Hex]|([k n] & -> & Hb & Hon)]; simpl in *.
- symmetry. destruct (existsb (vote_matches _ u) _) eqn:E; [|reflexivity].
  apply existsb_exists in E as (v & Hv & Hm).
  unfold vote_matches in Hm. apply andb_true_iff in Hm as [Hm1 Hm2].
  assert (E : existsb (fun m : Z * Z => fst m =? id (fst x))
                      (my_votes u (votes c)) = true); [|congruence].
  apply existsb_exists. exists (idea_id v, 1). split; [|exact Hm1].
  unfold my_votes. apply in_map_iff. exists v. split; [reflexivity|].
  apply filter_In. auto.
- symmetry. apply existsb_exists.
  unfold my_votes in Hb. apply in_map_iff in Hb as (v & [= <- <-] & Hv).
  apply filter_In in Hv as [Hv Hu]. exists v. split; [assumption|].
  unfold vote_matches. now rewrite Hon, Hu.
Qed.

Lemma int_or_0_id x : int_or_0 x = x.
Proof. unfold int_or_0. destruct (Z.eqb_spec x 0); congruence. Qed.

(** Every item [fetch_ideas] returns comes from a row of [ideas] of
  the category, and is computed from that row and the votes table. *)
Lemma fetch_ideas_In cat u c (e : item) :
In e (fetch_ideas cat u c) ->
exists i, In i (ideas c) /\ category i = cat
          /\ e = mk_item (id i) (content i)
                         (count_votes (id i) (votes c))
                         (created_at i) (has_voted (id i) u c).
Proof.
unfold fetch_ideas, select_ideas, result_set. intros H.
apply in_map_iff in H as (r & <- & Hr).
apply (proj1 (order_by_In _ _)) in Hr.
apply in_map_iff in Hr as ([[i g] m] & <- & Hk).
apply filter_In in Hk as [Hj Hcat]. apply eqb_eq in Hcat.
apply join_myvote in Hj as [Hj Hm]. apply join_count in Hj as [Hi Hg].
exists i. simpl in *. rewrite int_or_0_id, Hg, Hm. auto.
Qed.

(** Conversely every idea of the category is listed. *)
Lemma fetch_ideas_lists cat u c (i : idea) :
In i (ideas c) -> category i = cat ->
In (mk_item (id i) (content i) (count_votes (id i) (votes c))
            (created_at i) (has_voted (id i) u c))
   (fetch_ideas cat u c).
Proof.
intros Hi Hcat.
set (on1 := fun (i : idea) (g : Z * Z) => fst g =? id i).
set (on2 := fun (iv : idea * option (Z * Z)) (m : Z * Z) =>
              fst m =? id (fst iv)).
assert (H1 : exists g, In (i, g) (left_join on1 (ideas c)
                                           (votes_by_idea (votes c)))).
{ destruct (existsb (on1 i) (votes_by_idea (votes c))) eqn:E.
  - apply existsb_exists in E as (b & Hb & Hon).
    exists (Some b). apply in_left_join. eauto 7.
  - exists None. apply in_left_join. auto. }
destruct H1 as [g Hg].
assert (H2 : exists m,
           In (i, g, m)
              (left_join on2 (left_join on1 (ideas c)
                                        (votes_by_idea (votes c)))
                         (my_votes u (votes c)))).
{ destruct (existsb (on2 (i, g)) (my_votes u (votes c))) eqn:E.
  - apply existsb_exists in E as (b & Hb & Hon).
    exists (Some b). apply in_left_join. eauto 7.
  - exists None. apply in_left_join. auto. }
destruct H2 as [m Hm].
pose proof (join_myvote _ _ _ _ _ Hm) as [_ Em].
pose proof (join_count _ _ _ _ Hg) as [_ Eg]. simpl in Em.
unfold fetch_ideas, select_ideas, result_set. apply in_map_iff.
exists (mk_row (id i) (content i) (coalesce0 g) (created_at i)
               (case_myvote m)).
split; [simpl; now rewrite int_or_0_id, Eg, Em|].
apply order_by_In. apply in_map_iff. exists (i, g, m).
split; [reflexivity|]. apply filter_In. split; [exact Hm|].
now apply eqb_eq.
Qed.

End Joins.


Section ResultSet.

Lemma filter_filter {A} (f g : A -> bool) (l : list A) :
  filter f (filter g l) = filter (fun x => f x && g x) l.
Proof.
  induction l as [|x l IH]; simpl; [reflexivity|].
  destruct (g x); simpl; rewrite ?andb_true_r, ?andb_false_r;
    [destruct (f x)|]; now rewrite IH.
Qed.

(** A join whose condition selects at most one row on the right keeps
    one row per row on the left. *)
Lemma left_join_at_most_one {A B} (on : A -> B -> bool)
      (l : list A) (r : list B) :
  (forall a, In a l -> (List.length (filter (on a) r) <= 1)%nat) ->
  left_join on l r = map (fun a => (a, hd_error (filter (on a) r))) l.
Proof.
  unfold left_join. induction l as [|a l IH]; intros H; [reflexivity|].
  cbn [flat_map]. rewrite IH by (intros; apply H; now right).
  cbn [map].
  specialize (H a (or_introl eq_refl)).
  destruct (filter (on a) r) as [|b [|b' bs]]; simpl in *;
    [reflexivity | reflexivity | lia].
Qed.

Lemma filter_key_NoDup {A} (key : A -> Z) (k : Z) (l : list A) :
  NoDup (map key l) ->
  (List.length (filter (fun x => Z.eqb (key x) k) l) <= 1)%nat.
Proof.
  induction l as [|x l IH]; simpl; intros H; [lia|].
  inversion H as [|? ? Hx Hl]; subst.
  destruct (Z.eqb_spec (key x) k) as [<-|Hne]; simpl; auto.
  replace (filter (fun y => key y =? key x) l) with (@nil A);
    [simpl; lia|].
  symmetry. apply filter_nil_existsb.
  destruct (existsb _ l) eqn:E; [|reflexivity].
  apply existsb_exists in E as (y & Hy & Heq). apply Z.eqb_eq in Heq.
  exfalso. apply Hx. rewrite <- Heq. now apply in_map.
Qed.

Lemma votes_by_idea_at_most_one (i : idea) (vs : list vote) :
  (List.length (filter (fun g : Z * Z => Z.eqb (fst g) (id i))
                       (votes_by_idea vs)) <= 1)%nat.
Proof.
  apply (filter_key_NoDup (@fst Z Z)). unfold votes_by_idea.
  rewrite map_map. simpl. rewrite map_id. apply NoDup_nodup.
Qed.

Lemma pair_at_most_one (i : Z) (u : Py.str) (vs : list vote) :
  NoDup (map vote_key vs) ->
  (List.length (filter (vote_matches i u) vs) <= 1)%nat.
Proof.
  induction vs as [|v vs IH]; simpl; intros H; [lia|].
  inversion H as [|? ? Hv Hvs]; subst.
  destruct (vote_matches i u v) eqn:E; simpl; auto.
  apply vote_matches_key in E.
  replace (filter (vote_matches i u) vs) with (@nil vote); [simpl; lia|].
  symmetry. apply filter_nil_existsb.
  destruct (existsb _ vs) eqn:Ex; [|reflexivity].
  apply existsb_vote_matches in Ex. rewrite <- E in Ex. contradiction.
Qed.

Lemma my_votes_at_most_one {G} (x : idea * G) (u : Py.str)
      (vs : list vote) :
  NoDup (map vote_key vs) ->
  (List.length (filter (fun m : Z * Z => Z.eqb (fst m) (id (fst x)))
                       (my_votes u vs)) <= 1)%nat.
Proof.
  intros H. unfold my_votes. rewrite filter_map_swap, length_map. simpl.
  rewrite filter_filter.
  apply (pair_at_most_one (id (fst x)) u) in H.
  erewrite filter_ext; [exact H|].
  intros v. unfold vote_matches. reflexivity.
Qed.

End ResultSet.

Section ClosedForm.

Lemma case_myvote_has_voted (m : option (Z * Z)) (b : bool) :
  bool_of_int (case_myvote m) = b -> case_myvote m = if b then 1 else 0.
Proof. destruct m; simpl; intros <-; reflexivity. Qed.

(** With at most one vote row per pair, the SELECT produces exactly
    one row per idea of the category. *)
Lemma result_set_closed_form u cat c :
  NoDup (map vote_key (votes c)) ->
  result_set u cat c
  = map (row_of u c) (filter (fun i => Py.eqb (category i) cat) (ideas c)).
Proof.
  intros Hnd. unfold result_set.
  set (on1 := fun (i : idea) (g : Z * Z) => fst g =? id i).
  set (on2 := fun (iv : idea * option (Z * Z)) (m : Z * Z) =>
                fst m =? id (fst iv)).
  assert (J1 : forall i g,
             In (i, g) (left_join on1 (ideas c) (votes_by_idea (votes c)))
             -> coalesce0 g = count_votes (id i) (votes c))
    by (intros i g H; now apply join_count in H).
  assert (J2 : forall x m,
             In (x, m) (left_join on2
                          (left_join on1 (ideas c)
                                     (votes_by_idea (votes c)))
                          (my_votes u (votes c)))
             -> case_myvote m
                = if has_voted (id (fst x)) u c then 1 else 0)
    by (intros x m H; apply join_myvote in H as [_ H];
        now apply case_myvote_has_voted).
  rewrite (left_join_at_most_one on2) in *
    by (intros; now apply my_votes_at_most_one).
  rewrite (left_join_at_most_one on1) in *
    by (intros; apply votes_by_idea_at_most_one).
  rewrite map_map, filter_map_swap, map_map. simpl.
  apply map_ext_in. intros i Hi. apply filter_In in Hi as [Hi _].
  unfold row_of. f_equal.
  - apply J1. apply in_map_iff. eauto.
  - apply (J2 (i, hd_error (filter (on1 i) (votes_by_idea (votes c))))).
    rewrite map_map. apply in_map_iff. eauto.
Qed.

Lemma fetch_ideas_closed_form cat u c :
  consistent c ->
  fetch_ideas cat u c
  = map (fun r => mk_item (r_id r) (r_content r) (r_votes r)
                          (r_created_at r) (bool_of_int (r_i_voted r)))
        (order_by (map (row_of u c)
                       (filter (fun i => Py.eqb (category i) cat)
                               (ideas c)))).
Proof.
  intros Hc. unfold fetch_ideas, select_ideas.
  rewrite result_set_closed_form by apply Hc.
  apply map_ext. intros r. now rewrite int_or_0_id.
Qed.

Lemma insert_sorted_before x y l :
  order_leb x y = true -> insert_sorted x (y :: l) = x :: y :: l.
Proof. intros H. simpl. now rewrite H. Qed.

Lemma insert_sorted_after x y l :
  order_leb x y = false -> insert_sorted x (y :: l) = y :: insert_sorted x l.
Proof. intros H. simpl. now rewrite H. Qed.

Lemma order_leb_more_votes a b :
  r_votes b < r_votes a -> order_leb a b = true /\ order_leb b a = false.
Proof.
  intros H. unfold order_leb.
  destruct (Z.ltb_spec (r_votes b) (r_votes a)),
           (Z.ltb_spec (r_votes a) (r_votes b)),
           (Z.eqb_spec (r_votes b) (r_votes a)); simpl; auto; lia.
Qed.

Lemma order_leb_earlier a b :
  r_votes a = r_votes b -> r_created_at a < r_created_at b ->
  order_leb a b = true /\ order_leb b a = false.
Proof.
  intros Hv H. unfold order_leb.
  destruct (Z.ltb_spec (r_votes b) (r_votes a)),
           (Z.ltb_spec (r_votes a) (r_votes b)),
           (Z.eqb_spec (r_votes a) (r_votes b)),
           (Z.eqb_spec (r_votes b) (r_votes a)),
           (Z.ltb_spec (r_created_at a) (r_created_at b)),
           (Z.ltb_spec (r_created_at b) (r_created_at a)),
           (Z.eqb_spec (r_created_at b) (r_created_at a));
    simpl; auto; lia.
Qed.

Lemma order_leb_lower_id a b :
  r_votes a = r_votes b -> r_created_at a = r_created_at b ->
  r_id a < r_id b ->
  order_leb a b = true /\ order_leb b a = false.
Proof.
  intros Hv Ht H. unfold order_leb.
  destruct (Z.ltb_spec (r_votes b) (r_votes a)),
           (Z.ltb_spec (r_votes a) (r_votes b)),
           (Z.eqb_spec (r_votes a) (r_votes b)),
           (Z.eqb_spec (r_votes b) (r_votes a)),
           (Z.ltb_spec (r_created_at a) (r_created_at b)),
           (Z.ltb_spec (r_created_at b) (r_created_at a)),
           (Z.eqb_spec (r_created_at a) (r_created_at b)),
           (Z.eqb_spec (r_created_at b) (r_created_at a)),
           (Z.leb_spec (r_id a) (r_id b)),
           (Z.leb_spec (r_id b) (r_id a));
    simpl; auto; lia.
Qed.

(** [order_leb] is the ranking key of the specification. *)
Lemma order_leb_ranks_before (a b : result_row) :
  order_leb a b = true
  <-> ranks_before
        (mk_item (r_id a) (r_content a) (int_or_0 (r_votes a))
                 (r_created_at a) (bool_of_int (r_i_voted a)))
        (mk_item (r_id b) (r_content b) (int_or_0 (r_votes b))
                 (r_created_at b) (bool_of_int (r_i_voted b))).
Proof.
  unfold order_leb, ranks_before. simpl. rewrite !int_or_0_id.
  rewrite orb_true_iff, andb_true_iff, orb_true_iff, andb_true_iff.
  rewrite Z.ltb_lt, Z.eqb_eq, Z.ltb_lt, Z.eqb_eq, Z.leb_le.
  split; intros H; intuition lia.
Qed.

End ClosedForm.

Section Reachability.

Lemma reachable_run_calls ks c : reachable c -> reachable (run_calls ks c).
Proof.
  revert c. induction ks as [|[now k] ks IH]; simpl; intros c Hc; auto.
  apply IH. now constructor.
Qed.

Lemma reachable_toggle_times nows i u c :
  reachable c -> reachable (toggle_times nows i u c).
Proof.
  revert c. induction nows as [|now nows IH]; simpl; intros c Hc; auto.
  apply IH. exact (reach_call c now (ToggleVote i u) Hc).
Qed.


Lemma count_votes_delete_found (v : vote) (vs : list vote) :
  NoDup (map vote_id vs) -> In v vs ->
  count_votes (idea_id v)
              (filter (fun w => negb (vote_id w =? vote_id v)) vs)
  = count_votes (idea_id v) vs - 1.
Proof.
  intros Hnd Hin. unfold count_votes.
  assert (H : S (List.length
                   (filter (fun w => idea_id w =? idea_id v)
                      (filter (fun w => negb (vote_id w =? vote_id v)) vs)))
              = List.length (filter (fun w => idea_id w =? idea_id v) vs));
    [|lia].
  induction vs as [|w vs IH]; simpl in *; [tauto|].
  inversion Hnd as [|? ? Hw Hvs]; subst.
  destruct Hin as [->|Hin].
  - rewrite !Z.eqb_refl. simpl.
    rewrite filter_negb_none; [reflexivity|].
    destruct (existsb _ vs) eqn:E; [|reflexivity].
    apply existsb_exists in E as (x & Hx & Heq). apply Z.eqb_eq in Heq.
    exfalso. apply Hw. rewrite <- Heq. now apply in_map.
  - specialize (IH Hvs Hin).
    destruct (Z.eqb_spec (vote_id w) (vote_id v)) as [Heq|Hne]; simpl.
    + exfalso. apply Hw. rewrite Heq. now apply in_map.
    + destruct (idea_id w =? idea_id v); simpl; lia.
Qed.

Lemma count_votes_snoc i vs v :
  count_votes i (vs ++ [v])
  = count_votes i vs + (if idea_id v =? i then 1 else 0).
Proof.
  unfold count_votes. rewrite filter_app, length_app. simpl.
  destruct (idea_id v =? i); simpl; lia.
Qed.

(** One call of [toggle_vote] moves the number of votes of the idea
    by one, up or down. *)
Lemma toggle_vote_count now i u c :
  consistent c ->
  count_votes i (votes (after (toggle_vote now i u) c))
  = count_votes i (votes c) + (if has_voted i u c then -1 else 1).
Proof.
  intros Hc. unfold after.
  destruct (select_vote_id i u c) as [k|] eqn:Hs.
  - rewrite (toggle_vote_present now _ _ _ _ Hs). simpl.
    apply select_vote_id_Some in Hs as (Hv & v & Hin & Hk & <-).
    rewrite Hv. inversion Hk; subst.
    rewrite count_votes_delete_found by (auto; apply Hc). lia.
  - apply select_vote_id_None in Hs.
    rewrite (toggle_vote_absent now _ _ _ Hs (pragma_off c Hc)). simpl.
    rewrite Hs, count_votes_snoc. simpl. now rewrite Z.eqb_refl.
Qed.

End Reachability.

(* ================================================================== *)
(** * Facts about the other functions *)
(* ================================================================== *)

Section DeleteAndAdd.

Lemma delete_idea_result i c :
  result (delete_idea i) c = Py.Return Py.None_.
Proof. reflexivity. Qed.

(** With the pragma off, [delete_idea] touches the ideas table only. *)
Lemma delete_idea_pragma_off i c :
  foreign_keys c = false ->
  after (delete_idea i) c
  = mk_conn (filter (fun r => negb (id r =? i)) (ideas c)) (votes c)
            (seq_ideas c) (seq_votes c) false.
Proof.
  intros H. unfold after, delete_idea, bind, delete_idea_row. simpl.
  now rewrite H.
Qed.

(** With the pragma on, the votes of a deleted idea go with it. *)
Lemma delete_idea_pragma_on i c :
  foreign_keys c = true -> idea_exists i c = true ->
  count_votes i (votes (after (delete_idea i) c)) = 0.
Proof.
  intros H He. unfold after, delete_idea, bind, delete_idea_row. simpl.
  rewrite H, He. simpl. unfold count_votes. rewrite filter_filter.
  erewrite filter_ext; [rewrite filter_false; reflexivity|].
  intros v. simpl. now destruct (idea_id v =? i).
Qed.

(** A deleted idea is no longer listed. *)
Lemma delete_idea_unlisted i c cat u e :
  In e (fetch_ideas cat u (after (delete_idea i) c)) -> item_id e <> i.
Proof.
  intros H. apply fetch_ideas_In in H as (r & Hr & _ & ->). simpl.
  unfold after, delete_idea, bind, delete_idea_row in Hr. simpl in Hr.
  apply filter_In in Hr as [_ Hr].
  destruct (Z.eqb_spec (id r) i); [discriminate | assumption].
Qed.

(** Deleting an id no idea has changes nothing. *)
Lemma delete_idea_missing i c :
  idea_exists i c = false -> after (delete_idea i) c = c.
Proof.
  intros H. unfold after, delete_idea, bind, delete_idea_row. simpl.
  rewrite H, andb_false_r.
  unfold idea_exists in H. rewrite (filter_negb_none _ _ H).
  now destruct c.
Qed.

Lemma delete_idea_gone i c :
  idea_exists i (after (delete_idea i) c) = false.
Proof.
  unfold after, delete_idea, bind, delete_idea_row, idea_exists. simpl.
  apply (existsb_filter_negb (fun r => id r =? i)).
Qed.

(** With the pragma on, a vote on an id no idea has is refused and
    [toggle_vote] leaves the database as it is. *)
Lemma toggle_vote_pragma_on now i u c :
  foreign_keys c = true -> idea_exists i c = false ->
  has_voted i u c = false ->
  toggle_vote now i u c = (Py.Return Py.None_, c).
Proof.
  intros Hfk He Hv. pose proof Hv as Hs. apply select_vote_id_None in Hs.
  rewrite has_voted_existsb in Hv.
  unfold toggle_vote, bind, toggle_vote_act, toggle_vote_insert,
    try_except_IntegrityError_pass, insert_vote.
  rewrite Hs, Hv, Hfk, He. reflexivity.
Qed.

Lemma add_idea_blank now cat text c :
  Py.strip (Py.or_empty text) = [] ->
  add_idea now cat text c = (Py.Return (Py.Bool false), c).
Proof. intros H. unfold add_idea. now rewrite H. Qed.

Lemma add_idea_not_blank now (k : category_code) text c :
  Py.strip (Py.or_empty text) <> [] ->
  add_idea now (code k) text c
  = (Py.Return (Py.Bool true),
     mk_conn (ideas c ++ [mk_idea (next_id id (seq_ideas c) (ideas c))
                                  (code k) (Py.strip (Py.or_empty text))
                                  0 now])
             (votes c) (next_id id (seq_ideas c) (ideas c))
             (seq_votes c) (foreign_keys c)).
Proof.
  intros H. unfold add_idea.
  destruct (Py.strip (Py.or_empty text)) as [|x s] eqn:E; [congruence|].
  simpl. unfold bind, insert_idea. now destruct k.
Qed.

(** When every vote row points at an idea of the table, a new idea
    starts without votes. *)
Lemma new_idea_without_votes c :
  (forall v, In v (votes c) -> idea_exists (idea_id v) c = true) ->
  count_votes (next_id id (seq_ideas c) (ideas c)) (votes c) = 0.
Proof.
  intros H. apply count_votes_zero. intros Hin.
  apply in_map_iff in Hin as (v & Hv & Hin). apply H in Hin.
  unfold idea_exists in Hin. apply existsb_exists in Hin as (r & Hr & Heq).
  apply Z.eqb_eq in Heq.
  pose proof (next_id_above id (seq_ideas c) (ideas c)) as [_ Hlt].
  specialize (Hlt r Hr). lia.
Qed.

End DeleteAndAdd.

(* ================================================================== *)
(** * Facts about the threads *)
(* ================================================================== *)

Import Threads.

Section SetNth.
Context {A : Type}.

Lemma nth_error_set_nth_eq (l : list A) n x p :
  nth_error l n = Some p -> nth_error (set_nth n x l) n = Some x.
Proof.
  revert n. induction l as [|y l IH]; intros [|n]; simpl;
    try discriminate; auto.
Qed.

Lemma nth_error_set_nth_neq (l : list A) n m x :
  n <> m -> nth_error (set_nth n x l) m = nth_error l m.
Proof.
  revert n m. induction l as [|y l IH]; intros [|n] [|m] H; simpl;
    auto; congruence.
Qed.

Lemma set_nth_same (l : list A) n p :
  nth_error l n = Some p -> set_nth n p l = l.
Proof.
  revert n. induction l as [|y l IH]; intros [|n]; simpl;
    try discriminate.
  - now intros [= ->].
  - intros H. now rewrite IH.
Qed.

Lemma map_set_nth {B} (f : A -> B) (l : list A) n x :
  map f (set_nth n x l) = set_nth n (f x) (map f l).
Proof.
  revert n. induction l as [|y l IH]; intros [|n]; simpl; auto.
  now rewrite IH.
Qed.

Lemma length_set_nth (l : list A) n x :
  List.length (set_nth n x l) = List.length l.
Proof.
  revert n. induction l as [|y l IH]; intros [|n]; simpl; auto.
Qed.

(** Replacing one element moves the count of a predicate by the
    difference between the old and the new element. *)
Lemma count_set_nth (f : A -> bool) (l : list A) n x p :
  nth_error l n = Some p ->
  (List.length (filter f (set_nth n x l)) + Nat.b2n (f p)
   = List.length (filter f l) + Nat.b2n (f x))%nat.
Proof.
  revert n. induction l as [|y l IH]; intros [|n]; simpl;
    try discriminate.
  - intros [= ->]. destruct (f p), (f x); simpl; lia.
  - intros H. specialize (IH n H). destruct (f y); simpl; lia.
Qed.

Lemma count_one (f : A -> bool) (l : list A) n p :
  nth_error l n = Some p -> f p = true ->
  (1 <= List.length (filter f l))%nat.
Proof.
  revert n. induction l as [|y l IH]; intros [|n]; simpl;
    try discriminate.
  - intros [= ->] ->. simpl. lia.
  - intros H Hp. specialize (IH n H Hp). destruct (f y); simpl; lia.
Qed.

Lemma count_two (f : A -> bool) (l : list A) n m p q :
  nth_error l n = Some p -> nth_error l m = Some q -> n <> m ->
  f p = true -> f q = true ->
  (2 <= List.length (filter f l))%nat.
Proof.
  revert n m. induction l as [|y l IH]; intros [|n] [|m]; simpl;
    try discriminate; try congruence.
  - intros [= ->] Hm _ -> Hq. simpl.
    pose proof (count_one f l m q Hm Hq). lia.
  - intros Hn [= ->] _ Hp ->. simpl.
    pose proof (count_one f l n p Hn Hp). lia.
  - intros Hn Hm Hne Hp Hq.
    assert (n <> m) by congruence.
    specialize (IH n m Hn Hm H Hp Hq). destruct (f y); simpl; lia.
Qed.

End SetNth.

Section Lock.

Lemma step_inv n now g g' :
  step (n, now) g = Some g' ->
  exists p p' l' c',
    nth_error (threads g) n = Some p
    /\ thread_step now p (lock g) (store g) = Some (p', l', c')
    /\ g' = mk_config c' l' (set_nth n p' (threads g)).
Proof.
  unfold step.
  destruct (nth_error (threads g) n) as [p|] eqn:En; [|discriminate].
  destruct (thread_step now p (lock g) (store g)) as [[[p' l'] c']|] eqn:Et;
    [|discriminate].
  intros [= <-]. exists p, p', l', c'. auto.
Qed.

Lemma safe_start c calls : safe (start c calls).
Proof.
  constructor; simpl.
  - unfold in_critical. simpl.
    induction calls as [|k calls IH]; simpl; auto.
  - intros n i u row H. apply nth_error_In in H.
    apply in_map_iff in H as (k & Hk & _). discriminate.
  - intros n cat text H. apply nth_error_In in H.
    apply in_map_iff in H as (k & Hk & _). discriminate.
Qed.

(** A thread in its critical section holds the lock. *)
Lemma critical_holds_lock g n p :
  safe g -> nth_error (threads g) n = Some p -> critical p = true ->
  lock g = true.
Proof.
  intros Hs Hn Hp. pose proof (count_one critical _ n p Hn Hp) as H.
  fold (in_critical g) in H. rewrite (lock_holder g Hs) in H.
  destruct (lock g); simpl in H; [reflexivity | lia].
Qed.

(** No two threads are in their critical sections together. *)
Lemma critical_alone g n m p q :
  safe g -> nth_error (threads g) n = Some p ->
  nth_error (threads g) m = Some q ->
  critical p = true -> critical q = true -> n = m.
Proof.
  intros Hs Hn Hm Hp Hq. destruct (Nat.eq_dec n m) as [|Hne]; [assumption|].
  pose proof (count_two critical _ n m p q Hn Hm Hne Hp Hq) as H.
  fold (in_critical g) in H. rewrite (lock_holder g Hs) in H.
  destruct (lock g); simpl in H; lia.
Qed.

Lemma safe_update g n p p' l' c' :
  safe g -> nth_error (threads g) n = Some p ->
  (Nat.b2n l' + Nat.b2n (critical p)
   = Nat.b2n (lock g) + Nat.b2n (critical p'))%nat ->
  (c' = store g \/ critical p = true) ->
  (forall i u row, p' = Selected i u row -> row = select_vote_id i u c') ->
  (forall cat text, p' = Holding (AddIdea cat text) -> blank text = false) ->
  safe (mk_config c' l' (set_nth n p' (threads g))).
Proof.
  intros Hs Hn Hl Hc Hsel Hadd. constructor; simpl.
  - unfold in_critical. simpl.
    pose proof (count_set_nth critical (threads g) n p' p Hn) as H.
    pose proof (lock_holder g Hs) as H'. unfold in_critical in H'. lia.
  - intros m i u row Hm. destruct (Nat.eq_dec n m) as [<-|Hne].
    + rewrite (nth_error_set_nth_eq _ _ _ _ Hn) in Hm.
      injection Hm as Hm. now apply Hsel.
    + rewrite nth_error_set_nth_neq in Hm by assumption.
      destruct Hc as [->|Hp]; [now apply (selected_current g Hs m)|].
      exfalso. apply Hne.
      now apply (critical_alone g n m p (Selected i u row)).
  - intros m cat text Hm. destruct (Nat.eq_dec n m) as [<-|Hne].
    + rewrite (nth_error_set_nth_eq _ _ _ _ Hn) in Hm.
      injection Hm as Hm. now apply (Hadd cat text).
    + rewrite nth_error_set_nth_neq in Hm by assumption.
      now apply (holding_not_blank g Hs m cat).
Qed.

(** Every step keeps the lock discipline. *)
Lemma safe_step tick g g' : safe g -> step tick g = Some g' -> safe g'.
Proof.
  destruct tick as [n now]. intros Hs H.
  apply step_inv in H as (p & p' & l' & c' & Hn & Ht & ->).
  destruct p as [k|k|i u row|r|r]; simpl in Ht.
  - (* Ready *)
    destruct k as [cat text|i u|i].
    + destruct (blank text) eqn:Eb.
      * injection Ht as <- <- <-.
        apply (safe_update g n _ _ _ _ Hs Hn); simpl; auto; discriminate.
      * destruct (lock g) eqn:El; [discriminate|].
        injection Ht as <- <- <-.
        apply (safe_update g n _ _ _ _ Hs Hn); simpl; auto;
          [now rewrite El | discriminate | congruence].
    + destruct (lock g) eqn:El; [discriminate|].
      injection Ht as <- <- <-.
      apply (safe_update g n _ _ _ _ Hs Hn); simpl; auto;
        [now rewrite El | discriminate | discriminate].
    + destruct (lock g) eqn:El; [discriminate|].
      injection Ht as <- <- <-.
      apply (safe_update g n _ _ _ _ Hs Hn); simpl; auto;
        [now rewrite El | discriminate | discriminate].
  - (* Holding *)
    destruct k as [cat text|i u|i].
    + destruct (insert_idea now cat _ (store g)) as [[[]|e] c1];
        injection Ht as <- <- <-;
        apply (safe_update g n _ _ _ _ Hs Hn); simpl; auto; discriminate.
    + injection Ht as <- <- <-.
      apply (safe_update g n _ _ _ _ Hs Hn); simpl; auto;
        [congruence | discriminate].
    + destruct (delete_idea_row i (store g)) as [[[]|e] c1];
        injection Ht as <- <- <-;
        apply (safe_update g n _ _ _ _ Hs Hn); simpl; auto; discriminate.
  - (* Selected *)
    destruct (toggle_vote_act now i u row (store g)) as [[[]|e] c1];
      injection Ht as <- <- <-;
      apply (safe_update g n _ _ _ _ Hs Hn); simpl; auto; discriminate.
  - (* Leaving *)
    injection Ht as <- <- <-.
    pose proof (critical_holds_lock g n _ Hs Hn eq_refl) as El.
    apply (safe_update g n _ _ _ _ Hs Hn); simpl; auto;
      [now rewrite El | discriminate | discriminate].
  - discriminate.
Qed.

Lemma safe_run schedule g g' :
  safe g -> run schedule g = Some g' -> safe g'.
Proof.
  revert g. induction schedule as [|tick rest IH]; simpl; intros g Hs H.
  - now injection H as <-.
  - destruct (step tick g) as [g1|] eqn:E; [|discriminate].
    eapply IH; [|eassumption]. eapply safe_step; eassumption.
Qed.

End Lock.

Section Serial.

Lemma nth_error_view g n p :
  nth_error (threads g) n = Some p ->
  nth_error (snd (view g)) n = Some (status_of p).
Proof. intros H. simpl. now apply map_nth_error. Qed.

(** A step that neither writes nor changes what the thread looks like
    from outside is not seen. *)
Lemma view_unchanged g n p p' l' :
  nth_error (threads g) n = Some p -> status_of p' = status_of p ->
  view (mk_config (store g) l' (set_nth n p' (threads g))) = view g.
Proof.
  intros Hn Hs. unfold view. simpl. f_equal.
  rewrite map_set_nth, Hs. apply set_nth_same. now apply map_nth_error.
Qed.

(** The step at which a call takes effect is the whole call. *)
Lemma view_commit g n now p p' l' c' k r :
  nth_error (threads g) n = Some p -> status_of p = Pending k ->
  run_call now k (store g) = (r, c') -> status_of p' = Done r ->
  serial_step (n, now) (view g)
  = Some (view (mk_config c' l' (set_nth n p' (threads g)))).
Proof.
  intros Hn Hp Hr Hp'. unfold serial_step.
  rewrite (nth_error_view g n p Hn), Hp. simpl fst. rewrite Hr.
  unfold view. simpl. now rewrite map_set_nth, Hp'.
Qed.

Lemma toggle_vote_act_toggle now i u c :
  toggle_vote now i u c
  = match toggle_vote_act now i u (select_vote_id i u c) c with
    | (Py.Return _, c') => (Py.Return Py.None_, c')
    | (Py.Raise e, c') => (Py.Raise e, c')
    end.
Proof.
  unfold toggle_vote, bind.
  destruct (toggle_vote_act now i u (select_vote_id i u c) c)
    as [[[]|e] c']; reflexivity.
Qed.

(** Every step of a thread is invisible from outside or is its whole
    call, run alone on the store. *)
Lemma step_refines n now g g' :
  safe g -> step (n, now) g = Some g' ->
  view g' = view g \/ serial_step (n, now) (view g) = Some (view g').
Proof.
  intros Hs H.
  apply step_inv in H as (p & p' & l' & c' & Hn & Ht & ->).
  destruct p as [k|k|i u row|r|r]; simpl in Ht.
  - destruct k as [cat text|i u|i].
    + destruct (blank text) eqn:Eb.
      * injection Ht as <- <- <-. right.
        apply (view_commit g n now _ _ _ _ (AddIdea cat text)
                           (Py.Return (Py.Bool false)) Hn);
          try reflexivity.
        simpl. unfold add_idea. unfold blank in Eb. now rewrite Eb.
      * destruct (lock g); [discriminate|]. injection Ht as <- <- <-.
        left. now apply (view_unchanged g n _ _ _ Hn).
    + destruct (lock g); [discriminate|]. injection Ht as <- <- <-.
      left. now apply (view_unchanged g n _ _ _ Hn).
    + destruct (lock g); [discriminate|]. injection Ht as <- <- <-.
      left. now apply (view_unchanged g n _ _ _ Hn).
  - destruct k as [cat text|i u|i].
    + pose proof (holding_not_blank g Hs n cat text Hn) as Eb.
      right.
      destruct (insert_idea now cat _ (store g)) as [[[]|e] c1] eqn:Ei;
        injection Ht as <- <- <-;
        eapply (view_commit g n now _ _ _ _ (AddIdea cat text) _ Hn);
        try reflexivity; simpl; unfold add_idea, bind;
        unfold blank in Eb; rewrite Eb, Ei; reflexivity.
    + injection Ht as <- <- <-. left.
      now apply (view_unchanged g n _ _ _ Hn).
    + right.
      destruct (delete_idea_row i (store g)) as [[[]|e] c1] eqn:Ei;
        injection Ht as <- <- <-;
        eapply (view_commit g n now _ _ _ _ (DeleteIdea i) _ Hn);
        try reflexivity; simpl; unfold delete_idea, bind;
        rewrite Ei; reflexivity.
  - pose proof (selected_current g Hs n i u row Hn) as Er. right.
    destruct (toggle_vote_act now i u row (store g)) as [[[]|e] c1] eqn:Ei;
      injection Ht as <- <- <-;
      eapply (view_commit g n now _ _ _ _ (ToggleVote i u) _ Hn);
      try reflexivity; simpl; rewrite toggle_vote_act_toggle, <- Er, Ei;
      reflexivity.
  - injection Ht as <- <- <-. left.
    now apply (view_unchanged g n _ _ _ Hn).
  - discriminate.
Qed.

(** Whatever the schedule, the store and the results are those of the
    calls made one after another in some order. *)
Lemma run_refines schedule g g' :
  safe g -> run schedule g = Some g' ->
  exists order, serial_run order (view g) = Some (view g').
Proof.
  revert g. induction schedule as [|[n now] rest IH]; cbn [run];
    intros g Hs H.
  - injection H as <-. now exists [].
  - destruct (step (n, now) g) as [g1|] eqn:E; [|discriminate].
    pose proof (safe_step _ _ _ Hs E) as Hs1.
    destruct (IH g1 Hs1 H) as [order Ho].
    destruct (step_refines n now g g1 Hs E) as [Hv|Hv].
    + exists order. now rewrite <- Hv.
    + exists ((n, now) :: order). cbn [serial_run]. now rewrite Hv.
Qed.

Lemma serial_step_done tick s s' :
  serial_step tick s = Some s' ->
  List.length (filter is_done (snd s'))
  = S (List.length (filter is_done (snd s))).
Proof.
  destruct tick as [n now]. unfold serial_step.
  destruct (nth_error (snd s) n) as [[k|r]|] eqn:En; try discriminate.
  destruct (run_call now k (fst s)) as [r c']. intros [= <-]. simpl.
  pose proof (count_set_nth is_done (snd s) n (Done r) _ En) as H.
  simpl in H. lia.
Qed.

Lemma serial_run_done order s s' :
  serial_run order s = Some s' ->
  List.length (filter is_done (snd s'))
  = (List.length order + List.length (filter is_done (snd s)))%nat.
Proof.
  revert s. induction order as [|tick rest IH]; simpl; intros s H.
  - now injection H as <-.
  - destruct (serial_step tick s) as [s1|] eqn:E; [|discriminate].
    rewrite (IH s1 H), (serial_step_done _ _ _ E). lia.
Qed.

Lemma finished_status p r :
  finished p = true -> status_of p = Done r -> p = Finished r.
Proof. destruct p; simpl; congruence. Qed.

Lemma finished_is_done p : finished p = true -> is_done (status_of p) = true.
Proof. destruct p; simpl; congruence. Qed.

Lemma all_finished_done g :
  all_finished g = true ->
  List.length (filter is_done (snd (view g))) = List.length (threads g).
Proof.
  unfold all_finished, view. simpl.
  induction (threads g) as [|p l IH]; simpl; [reflexivity|].
  intros H. apply andb_true_iff in H as [Hp Hl].
  rewrite (finished_is_done p Hp). simpl. now rewrite IH.
Qed.

End Serial.

Import Scenario.

Section TwoToggles.

Lemma toggle_vote_pair now i u c :
  toggle_vote now i u c
  = (Py.Return Py.None_, after (toggle_vote now i u) c).
Proof.
  rewrite <- (toggle_vote_result now i u c). unfold result, after.
  now destruct (toggle_vote now i u c).
Qed.

Lemma serial_step_toggle n now c l i u :
  nth_error l n = Some (Pending (ToggleVote i u)) ->
  serial_step (n, now) (c, l)
  = Some (after (toggle_vote now i u) c,
          set_nth n (Done (Py.Return Py.None_)) l).
Proof.
  intros H. unfold serial_step. cbn [fst snd]. rewrite H.
  cbn [run_call]. now rewrite toggle_vote_pair.
Qed.

Lemma serial_step_stuck n now c l :
  (forall k, nth_error l n <> Some (Pending k)) ->
  serial_step (n, now) (c, l) = None.
Proof.
  intros H. unfold serial_step. cbn [fst snd].
  destruct (nth_error l n) as [[k|r]|]; try reflexivity.
  now destruct (H k).
Qed.

(** Two pending calls of [toggle_vote] on the same pair, made one
    after the other in either order. *)
Lemma two_toggles_serial c i u order s' :
  serial_run order (c, [Pending (ToggleVote i u); Pending (ToggleVote i u)])
  = Some s' ->
  List.length (filter is_done (snd s')) = 2%nat ->
  exists t t',
    s' = (toggle_times [t; t'] i u c,
          [Done (Py.Return Py.None_); Done (Py.Return Py.None_)]).
Proof.
  intros Hr Hd. pose proof (serial_run_done _ _ _ Hr) as Hl.
  rewrite Hd in Hl. simpl in Hl.
  destruct order as [|[n1 t1] [|[n2 t2] [|? ?]]]; simpl in Hl; try lia.
  exists t1, t2. cbn [serial_run] in Hr.
  destruct (serial_step (n1, t1) _) as [s1|] eqn:E1; [|discriminate].
  destruct (serial_step (n2, t2) s1) as [s2|] eqn:E2; [|discriminate].
  injection Hr as <-.
  destruct n1 as [|[|n1]];
    [ rewrite (serial_step_toggle _ _ _ _ i u) in E1 by reflexivity
    | rewrite (serial_step_toggle _ _ _ _ i u) in E1 by reflexivity
    | rewrite serial_step_stuck in E1
        by (cbn; destruct n1; intros ? [=]) ];
    try discriminate; injection E1 as <-;
    (destruct n2 as [|[|n2]];
     [ (rewrite (serial_step_toggle _ _ _ _ i u) in E2 by reflexivity)
       || (rewrite serial_step_stuck in E2 by (cbn; intros ? [=]))
     | (rewrite (serial_step_toggle _ _ _ _ i u) in E2 by reflexivity)
       || (rewrite serial_step_stuck in E2 by (cbn; intros ? [=]))
     | rewrite serial_step_stuck in E2
         by (cbn; destruct n2; intros ? [=]) ]);
    try discriminate; now injection E2 as <-.
Qed.

(** Thread 0 first, then thread 1: both calls run to their end. *)
Lemma one_then_other_runs c i u t t' :
  exists g, run (one_then_other t t') (two_toggles c i u) = Some g
            /\ all_finished g = true.
Proof.
  unfold one_then_other, two_toggles, start. cbn.
  destruct (toggle_vote_act t i u (select_vote_id i u c) c)
    as [[[]|e] c1]; cbn;
    destruct (toggle_vote_act t' i u (select_vote_id i u c1) c1)
      as [[[]|e'] c2]; cbn; eauto.
Qed.

Lemma two_toggles_finished c i u schedule g :
  run schedule (two_toggles c i u) = Some g -> all_finished g = true ->
  threads g = [Finished (Py.Return Py.None_); Finished (Py.Return Py.None_)]
  /\ exists t t', store g = toggle_times [t; t'] i u c.
Proof.
  intros Hr Hf.
  pose proof (safe_start c [ToggleVote i u; ToggleVote i u]) as Hs.
  destruct (run_refines _ _ _ Hs Hr) as [order Ho].
  pose proof (all_finished_done g Hf) as Hd.
  assert (Hlen : List.length (threads g) = 2%nat).
  { assert (G : forall order s s', serial_run order s = Some s' ->
                  List.length (snd s') = List.length (snd s)).
    { clear. induction order as [|[n now] rest IH]; cbn [serial_run];
        intros s s' H.
      - now injection H as <-.
      - destruct (serial_step (n, now) s) as [s1|] eqn:E; [|discriminate].
        rewrite (IH _ _ H). unfold serial_step in E.
        destruct (nth_error (snd s) n) as [[k|r]|]; try discriminate.
        destruct (run_call now k (fst s)) as [r c1].
        injection E as <-. simpl. apply length_set_nth. }
    pose proof (G _ _ _ Ho) as HG. simpl in HG.
    now rewrite length_map in HG. }
  rewrite Hlen in Hd.
  destruct (two_toggles_serial c i u order (view g) Ho Hd)
    as (t & t' & Hv).
  unfold view in Hv. injection Hv as Hst Hth. split; [|eauto].
  unfold all_finished in Hf.
  destruct (threads g) as [|p [|q [|? ?]]]; simpl in Hlen; try lia.
  simpl in Hf, Hth. injection Hth as Hp Hq.
  apply andb_true_iff in Hf as [Hfp Hf].
  apply andb_true_iff in Hf as [Hfq _].
  now rewrite (finished_status p _ Hfp Hp), (finished_status q _ Hfq Hq).
Qed.

End TwoToggles.

(* ================================================================== *)
(** * The properties of the specification *)
(* ================================================================== *)

(** ** Toggling *)

(** C2.  From a state in which session [u] holds no vote on idea [i],
    [has_voted i u] is true after an odd number of calls of
    [toggle_vote i u] and false after an even number. *)
Theorem toggle_vote_parity (c : conn) (i : Z) (u : Py.str) (nows : list Z) :
  reachable c ->
  has_voted i u c = false ->
  has_voted i u (toggle_times nows i u c) = Nat.odd (List.length nows).
Proof.
  intros Hr Hv.
  rewrite toggle_times_flips by now apply reachable_consistent.
  now rewrite Hv.
Qed.

Lemma toggle_vote_parity_witness :
  reachable (get_conn None)
  /\ has_voted 1 u1 (get_conn None) = false
  /\ has_voted 1 u1 (toggle_times [10; 11; 12] 1 u1 (get_conn None))
     = Nat.odd 3.
Proof.
  split; [apply reach_new|]. split; [reflexivity|].
  apply (toggle_vote_parity (get_conn None) 1 u1 [10; 11; 12]);
    [apply reach_new | reflexivity].
Defined.

(** C4.  In every reachable state each pair (idea, session) has at most
    one vote row; an INSERT that collides with the UNIQUE constraint
    raises [IntegrityError] inside [toggle_vote], where it is caught and
    the database is left as it was; and [toggle_vote] raises nothing to
    its caller. *)
Theorem votes_unique_collision_absorbed (c : conn) :
  reachable c ->
  NoDup (map vote_key (votes c))
  /\ (forall i u,
         (List.length (filter (vote_matches i u) (votes c)) <= 1)%nat)
  /\ (forall now i u,
         has_voted i u c = true ->
         insert_vote now i u c
         = (Py.Raise (Py.IntegrityError Py.UniqueVote), c)
         /\ toggle_vote_insert now i u c = (Py.Return tt, c))
  /\ (forall now i u, result (toggle_vote now i u) c = Py.Return Py.None_).
Proof.
  intros Hr. pose proof (reachable_consistent c Hr) as Hc.
  split; [apply Hc|]. split; [|split].
  - intros i u. apply pair_at_most_one, Hc.
  - intros now i u Hv. rewrite has_voted_existsb in Hv.
    unfold toggle_vote_insert, try_except_IntegrityError_pass, insert_vote.
    now rewrite Hv.
  - intros now i u. apply toggle_vote_result.
Qed.

Lemma votes_unique_collision_absorbed_witness :
  reachable voted_idea
  /\ insert_vote 14 1 u1 voted_idea
     = (Py.Raise (Py.IntegrityError Py.UniqueVote), voted_idea)
  /\ toggle_vote_insert 14 1 u1 voted_idea = (Py.Return tt, voted_idea).
Proof.
  assert (H : reachable voted_idea) by apply reachable_run_calls, reach_new.
  split; [exact H|].
  apply (proj1 (proj2 (proj2 (votes_unique_collision_absorbed voted_idea H)))
               14 1 u1).
  reflexivity.
Defined.

(** C7, as the code has it.  [toggle_vote] returns [None]; in every
    reachable state the call flips the answer of [has_voted] for the
    pair, the number of votes of the idea going up by one when the call
    created the vote and down by one when it removed it. *)
Theorem toggle_vote_returns_none (c : conn) (now i : Z) (u : Py.str) :
  reachable c ->
  result (toggle_vote now i u) c = Py.Return Py.None_
  /\ has_voted i u (after (toggle_vote now i u) c) = negb (has_voted i u c)
  /\ count_votes i (votes (after (toggle_vote now i u) c))
     = count_votes i (votes c) + (if has_voted i u c then -1 else 1).
Proof.
  intros Hr. pose proof (reachable_consistent c Hr) as Hc.
  split; [apply toggle_vote_result|].
  split; [now apply toggle_vote_flips | now apply toggle_vote_count].
Qed.

Lemma toggle_vote_returns_none_witness :
  reachable voted_idea
  /\ result (toggle_vote 14 1 u1) voted_idea = Py.Return Py.None_
  /\ has_voted 1 u1 (after (toggle_vote 14 1 u1) voted_idea)
     = negb (has_voted 1 u1 voted_idea).
Proof.
  assert (H : reachable voted_idea) by apply reachable_run_calls, reach_new.
  split; [exact H|].
  destruct (toggle_vote_returns_none voted_idea 14 1 u1 H) as (R & F & _).
  split; [exact R | exact F].
Defined.

(** C7 as stated fails: on the new board the call creates the vote of
    session 1 on idea 1, and what it returns is not the boolean
    [true]. *)
Lemma toggle_vote_returns_no_bool :
  has_voted 1 u1 (get_conn None) = false
  /\ has_voted 1 u1 (after (toggle_vote 10 1 u1) (get_conn None)) = true
  /\ result (toggle_vote 10 1 u1) (get_conn None)
     <> Py.Return (Py.Bool true).
Proof.
  split; [reflexivity|]. split; [reflexivity|].
  rewrite toggle_vote_result. discriminate.
Qed.

(** ** Listing *)

Lemma abc_board_consistent t1 t2 t3 : consistent (abc_board t1 t2 t3).
Proof. apply reachable_consistent, reachable_run_calls, reach_new. Qed.

(** C3.  Whatever the state, the category and the session, the list
    [fetch_ideas] returns is sorted by (votes descending, created_at
    ascending, id ascending); for A (3 votes, created at [t1]),
    B (3 votes, created at [t2 > t1]) and C (5 votes, created at [t3])
    the list is C, A, B; and when A and B were created at the same
    instant, A, which has the lower id, still comes before B. *)
Theorem fetch_ideas_ranked :
  (forall cat u c, StronglySorted ranks_before (fetch_ideas cat u c))
  /\ (forall t1 t2 t3 u,
         t1 <= t2 ->
         map (fun e => (item_id e, item_content e, item_votes e,
                        item_created_at e))
             (fetch_ideas food u (abc_board t1 t2 t3))
         = [(3, Py.lit "C", 5, t3); (1, Py.lit "A", 3, t1);
            (2, Py.lit "B", 3, t2)]).
Proof.
  split.
  - intros cat u c. unfold fetch_ideas, select_ideas.
    pose proof (order_by_sorted (result_set u cat c)) as H.
    induction H as [|r l Hl IH Hr]; simpl; constructor; auto.
    rewrite Forall_forall in *. intros e He.
    apply in_map_iff in He as (r' & <- & Hr').
    apply order_leb_ranks_before. auto.
  - intros t1 t2 t3 u Hlt.
    rewrite fetch_ideas_closed_form by apply abc_board_consistent.
    set (c := abc_board t1 t2 t3).
    change (filter (fun i => Py.eqb (category i) food) (ideas c))
      with [mk_idea 1 food (Py.lit "A") 0 t1;
            mk_idea 2 food (Py.lit "B") 0 t2;
            mk_idea 3 food (Py.lit "C") 0 t3].
    cbn [map]. unfold row_of. cbn [id content created_at].
    change (count_votes 1 (votes c)) with 3.
    change (count_votes 2 (votes c)) with 3.
    change (count_votes 3 (votes c)) with 5.
    generalize (if has_voted 1 u c then 1 else 0),
               (if has_voted 2 u c then 1 else 0),
               (if has_voted 3 u c then 1 else 0).
    intros v1 v2 v3. unfold order_by. cbn [fold_right].
    change (insert_sorted ?x []) with [x].
    rewrite insert_sorted_after
      by (apply order_leb_more_votes; simpl; lia).
    change (insert_sorted ?x []) with [x].
    rewrite insert_sorted_after
      by (apply order_leb_more_votes; simpl; lia).
    rewrite insert_sorted_before; [reflexivity|].
    destruct (Z.eq_dec t1 t2) as [Heq|Hne];
      [|assert (Hlt' : t1 < t2) by lia; clear Hlt; rename Hlt' into Hlt].
    2: apply order_leb_earlier; simpl; [reflexivity | exact Hlt].
    apply order_leb_lower_id; simpl; [reflexivity | exact Heq | lia].
Qed.

Lemma fetch_ideas_ranked_witness :
  100 <= 200
  /\ map (fun e => (item_id e, item_content e, item_votes e,
                    item_created_at e))
         (fetch_ideas food u1 (abc_board 100 200 50))
     = [(3, Py.lit "C", 5, 50); (1, Py.lit "A", 3, 100);
        (2, Py.lit "B", 3, 200)].
Proof.
  split; [lia|]. apply (proj2 fetch_ideas_ranked 100 200 50 u1). lia.
Defined.

(** C8.  Every item [fetch_ideas] returns carries as [votes] the number
    of rows of the votes table that reference its idea, and as
    [i_voted] whether the votes table has a row for that idea and the
    requesting session. *)
Theorem fetch_ideas_live_count (cat u : Py.str) (c : conn) (e : item) :
  In e (fetch_ideas cat u c) ->
  item_votes e
  = Z.of_nat (List.length
                (filter (fun v => idea_id v =? item_id e) (votes c)))
  /\ (item_i_voted e = true
      <-> exists v, In v (votes c)
                    /\ idea_id v = item_id e /\ user_id v = u).
Proof.
  intros H. apply fetch_ideas_In in H as (i & _ & _ & ->). simpl.
  split; [reflexivity | apply has_voted_iff].
Qed.

Lemma fetch_ideas_live_count_witness :
  In (mk_item 1 pizza 3 10 true) (fetch_ideas food u1 voted_idea)
  /\ item_votes (mk_item 1 pizza 3 10 true)
     = Z.of_nat (List.length
                   (filter (fun v => idea_id v =? 1) (votes voted_idea))).
Proof.
  assert (H : In (mk_item 1 pizza 3 10 true) (fetch_ideas food u1 voted_idea))
    by (left; reflexivity).
  split; [exact H|].
  exact (proj1 (fetch_ideas_live_count food u1 voted_idea _ H)).
Defined.



(** ** Where the connection's pragma shows *)

(** C1, at the input where the code departs from it.  Idea 1 has three
    votes; [delete_idea 1] returns without raising and removes the row
    of the idea, so that it is no longer listed, and a second
    [delete_idea 1] changes nothing; but the three vote rows that
    reference idea 1 are still in the votes table. *)
Theorem delete_idea_keeps_votes :
  reachable voted_idea
  /\ count_votes 1 (votes voted_idea) = 3
  /\ result (delete_idea 1) voted_idea = Py.Return Py.None_
  /\ ideas (after (delete_idea 1) voted_idea) = []
  /\ fetch_ideas food u1 (after (delete_idea 1) voted_idea) = []
  /\ after (delete_idea 1) (after (delete_idea 1) voted_idea)
     = after (delete_idea 1) voted_idea
  /\ votes (after (delete_idea 1) voted_idea) = votes voted_idea
  /\ count_votes 1 (votes (after (delete_idea 1) voted_idea)) = 3.
Proof.
  split; [apply reachable_run_calls, reach_new|].
  repeat split; reflexivity.
Qed.

(** C5, at the input where the code departs from it.  Idea 1 has just
    been deleted and the votes table is empty; [toggle_vote 1 u1]
    returns without raising, and the votes table then holds a row for
    idea 1, which no row of the ideas table carries. *)
Theorem toggle_vote_on_deleted_idea :
  reachable deleted_idea
  /\ idea_exists 1 deleted_idea = false
  /\ votes deleted_idea = []
  /\ result (toggle_vote 12 1 u1) deleted_idea = Py.Return Py.None_
  /\ votes (after (toggle_vote 12 1 u1) deleted_idea) = [mk_vote 1 1 u1 12]
  /\ after (toggle_vote 12 1 u1) deleted_idea <> deleted_idea.
Proof.
  split; [apply reachable_run_calls, reach_new|].
  repeat split; try reflexivity. discriminate.
Qed.

(** Outside the page.  When [toggle_vote] is called directly on id 1
    while the board has no idea, which [render_category] never does,
    the vote row stays for the id; [add_idea] then accepts "pizza",
    inserts it as the one row of the ideas table, with id 1 and the
    clock reading, and leaves the votes table alone; the new idea is
    listed with the vote that waited for its id. *)
Theorem add_idea_listed_with_earlier_vote :
  reachable early_vote
  /\ ideas early_vote = []
  /\ result (add_idea 20 food (Some pizza)) early_vote
     = Py.Return (Py.Bool true)
  /\ ideas (after (add_idea 20 food (Some pizza)) early_vote)
     = [mk_idea 1 food pizza 0 20]
  /\ votes (after (add_idea 20 food (Some pizza)) early_vote)
     = votes early_vote
  /\ fetch_ideas food u2 (after (add_idea 20 food (Some pizza)) early_vote)
     = [mk_item 1 pizza 1 20 false].
Proof.
  split; [apply reachable_run_calls, reach_new|].
  repeat split; reflexivity.
Qed.

(** What [add_idea] does in a consistent state: blank text is refused
    and nothing changes; other text is accepted, one row is appended to
    the ideas table with an id above every id in use and ever used, the
    clock reading and 0 in the legacy column, the votes table is left
    alone, and the idea is listed with the votes that carry its id. *)
Lemma add_idea_outcome (k : category_code) (now : Z) (text : option Py.str)
      (u : Py.str) (c : conn) :
  consistent c ->
  let new := next_id id (seq_ideas c) (ideas c) in
  let c' := after (add_idea now (code k) text) c in
  (Py.strip (Py.or_empty text) = [] ->
   add_idea now (code k) text c = (Py.Return (Py.Bool false), c))
  /\ (Py.strip (Py.or_empty text) <> [] ->
      result (add_idea now (code k) text) c = Py.Return (Py.Bool true)
      /\ ideas c' = ideas c ++ [mk_idea new (code k)
                                        (Py.strip (Py.or_empty text)) 0 now]
      /\ votes c' = votes c
      /\ seq_ideas c < new
      /\ (forall r, In r (ideas c) -> id r < new)
      /\ In (mk_item new (Py.strip (Py.or_empty text))
                     (count_votes new (votes c)) now (has_voted new u c))
            (fetch_ideas (code k) u c')).
Proof.
  intros Hc new c'. split; [apply add_idea_blank|].
  intros Hne. subst c'. unfold result, after.
  rewrite (add_idea_not_blank now k text c Hne). simpl.
  pose proof (next_id_above id (seq_ideas c) (ideas c)) as [Hseq Hrows].
  repeat split; auto.
  set (row := mk_idea new (code k) (Py.strip (Py.or_empty text)) 0 now).
  set (c1 := mk_conn _ _ _ _ _).
  assert (Hin : In row (ideas c1))
    by (subst c1; simpl; apply in_or_app; right; now left).
  exact (fetch_ideas_lists (code k) u c1 row Hin eq_refl).
Qed.

(** On the new board, text of blanks only is refused and inserts no
    row; "pizza" is accepted and is then listed under its category with
    no vote. *)
Lemma add_idea_on_new_board :
  add_idea 10 food (Some (Py.lit "   ")) (get_conn None)
  = (Py.Return (Py.Bool false), get_conn None)
  /\ result (add_idea 10 food (Some pizza)) (get_conn None)
     = Py.Return (Py.Bool true)
  /\ fetch_ideas food u1 (after (add_idea 10 food (Some pizza))
                                (get_conn None))
     = [mk_item 1 pizza 0 10 false].
Proof. repeat split; reflexivity. Qed.

(** ** Threads *)

Lemma view_start c calls : view (start c calls) = (c, map Pending calls).
Proof.
  unfold view, start. simpl. f_equal. rewrite map_map.
  now apply map_ext.
Qed.

(** C9, as the code has it.  Whatever calls the threads make and
    however they are scheduled, at most one thread is inside a
    [with lock] block at any moment, and the store and the results are
    those of the calls made one after another in some order.  For two
    threads that each call [toggle_vote i u] once on a reachable store:
    when both calls are over neither has raised, the pair has at most
    one vote row, [has_voted i u] answers what it answered before, and
    the number of votes of the idea is what it was before, one call
    having moved it by one and the other having moved it back; and the
    two calls can always be run to their end. *)
Theorem toggle_vote_under_lock :
  (forall c calls schedule g,
      run schedule (start c calls) = Some g ->
      (in_critical g <= 1)%nat
      /\ in_critical g = Nat.b2n (lock g)
      /\ exists order,
           serial_run order (c, map Pending calls) = Some (view g))
  /\ (forall c i u,
         reachable c ->
         (forall schedule g,
             run schedule (two_toggles c i u) = Some g ->
             all_finished g = true ->
             threads g = [Finished (Py.Return Py.None_);
                          Finished (Py.Return Py.None_)]
             /\ has_voted i u (store g) = has_voted i u c
             /\ (List.length (filter (vote_matches i u) (votes (store g)))
                 <= 1)%nat
             /\ count_votes i (votes (store g)) = count_votes i (votes c)
             /\ exists t t',
                  store g = toggle_times [t; t'] i u c
                  /\ Z.abs (count_votes i
                              (votes (after (toggle_vote t i u) c))
                            - count_votes i (votes c)) = 1)
         /\ (exists schedule g,
                run schedule (two_toggles c i u) = Some g
                /\ all_finished g = true)).
Proof.
  split.
  - intros c calls schedule g Hr.
    pose proof (safe_run _ _ _ (safe_start c calls) Hr) as Hs.
    pose proof (lock_holder g Hs) as Hl. rewrite Hl.
    split; [destruct (lock g); simpl; lia|]. split; [reflexivity|].
    destruct (run_refines _ _ _ (safe_start c calls) Hr) as [order Ho].
    rewrite view_start in Ho. eauto.
  - intros c i u Hreach. pose proof (reachable_consistent c Hreach) as Hc.
    split.
    + intros schedule g Hr Hf.
      destruct (two_toggles_finished c i u schedule g Hr Hf)
        as (Hth & t & t' & Hst).
      pose proof (toggle_times_consistent [t; t'] i u c Hc) as Hc2.
      pose proof (consistent_toggle_vote t i u c Hc) as Hc1.
      split; [exact Hth|]. rewrite Hst.
      split; [rewrite toggle_times_flips by exact Hc; simpl;
              now destruct (has_voted i u c)|].
      split; [apply pair_at_most_one, Hc2|].
      split.
      * cbn [toggle_times].
        rewrite (toggle_vote_count t' i u _ Hc1),
                (toggle_vote_count t i u c Hc),
                (toggle_vote_flips t i u c Hc).
        destruct (has_voted i u c); simpl; lia.
      * exists t, t'. split; [reflexivity|].
        rewrite (toggle_vote_count t i u c Hc).
        destruct (has_voted i u c); lia.
    + destruct (one_then_other_runs c i u 0 0) as (g & Hr & Hf). eauto.
Qed.

Lemma toggle_vote_under_lock_witness :
  reachable (get_conn None)
  /\ exists g,
       run (one_then_other 30 31) (two_toggles (get_conn None) 1 u1) = Some g
       /\ all_finished g = true
       /\ has_voted 1 u1 (store g) = has_voted 1 u1 (get_conn None).
Proof.
  split; [apply reach_new|]. eexists.
  split; [reflexivity|]. split; [reflexivity|].
  apply (proj1 (proj2 toggle_vote_under_lock (get_conn None) 1 u1 reach_new))
    with (schedule := one_then_other 30 31); reflexivity.
Defined.

(** C9 as stated fails: on the new board thread 0 runs
    [toggle_vote 1 u1] to its end and then thread 1 does; the number of
    votes of idea 1 is then what it was, its net change is not of one
    vote. *)
Lemma two_toggles_net_change_zero :
  exists g,
    run (one_then_other 30 31) (two_toggles (get_conn None) 1 u1) = Some g
    /\ all_finished g = true
    /\ count_votes 1 (votes (store g))
       = count_votes 1 (votes (get_conn None))
    /\ Z.abs (count_votes 1 (votes (store g))
              - count_votes 1 (votes (get_conn None))) <> 1.
Proof.
  eexists. split; [reflexivity|]. split; [reflexivity|].
  split; [reflexivity|]. discriminate.
Qed.

(* ================================================================== *)
(** * Further properties of the functions *)
(* ================================================================== *)

(** ** [strip] *)

Section Strip.

Lemma lstrip_split (s : Py.str) :
  exists p, s = p ++ Py.lstrip s /\ forallb Py.isspace p = true.
Proof.
  induction s as [|c s (p & Hs & Hp)]; simpl.
  - now exists [].
  - destruct (Py.isspace c) eqn:E.
    + exists (c :: p). simpl. rewrite E, Hp. now rewrite <- Hs.
    + now exists [].
Qed.

Lemma lstrip_head (s : Py.str) c r :
  Py.lstrip s = c :: r -> Py.isspace c = false.
Proof.
  induction s as [|a s IH]; simpl; [discriminate|].
  destruct (Py.isspace a) eqn:E; [exact IH|]. now intros [= <- _].
Qed.

Lemma forallb_rev {A} (f : A -> bool) (l : list A) :
  forallb f (rev l) = forallb f l.
Proof.
  destruct (forallb f l) eqn:E.
  - rewrite forallb_forall in *. intros x Hx. apply E. now apply in_rev.
  - destruct (forallb f (rev l)) eqn:E'; [|reflexivity].
    rewrite <- E. symmetry. rewrite forallb_forall in *.
    intros x Hx. apply E'. now apply in_rev in Hx.
Qed.

(** [strip] takes away a run of whitespace at each end, and what it
    leaves is empty or has no whitespace at either end. *)
Lemma strip_split (s : Py.str) :
  exists p q,
    s = p ++ Py.strip s ++ q
    /\ forallb Py.isspace p = true /\ forallb Py.isspace q = true
    /\ (Py.strip s = [] \/ trimmed (Py.strip s)).
Proof.
  destruct (lstrip_split s) as (p & Hs & Hp).
  destruct (lstrip_split (rev (Py.lstrip s))) as (q & Hq & Hqs).
  assert (Hx : Py.lstrip s = Py.strip s ++ rev q).
  { unfold Py.strip, Py.rstrip. rewrite <- rev_app_distr, <- Hq.
    now rewrite rev_involutive. }
  exists p, (rev q). split; [now rewrite <- Hx|].
  split; [assumption|]. split; [now rewrite forallb_rev|].
  destruct (Py.strip s) as [|c0 r0] eqn:E; [now left|]. right.
  split; [discriminate|]. split; intros c r Hc.
  - injection Hc as <- <-. apply (lstrip_head s c0 (r0 ++ rev q)).
    now rewrite Hx.
  - unfold Py.strip, Py.rstrip in E.
    apply (lstrip_head (rev (Py.lstrip s)) c (rev r)).
    rewrite <- (rev_involutive (Py.lstrip (rev (Py.lstrip s)))), E, Hc.
    now rewrite rev_app_distr.
Qed.

Lemma strip_nil_iff (s : Py.str) :
  Py.strip s = [] <-> forallb Py.isspace s = true.
Proof.
  destruct (strip_split s) as (p & q & Hs & Hp & Hq & Ht). split.
  - intros E. rewrite Hs, E, !forallb_app, Hp, Hq. reflexivity.
  - intros Ha. destruct Ht as [E|(Hne & Hh & _)]; [assumption|].
    destruct (Py.strip s) as [|c r]; [reflexivity|].
    rewrite Hs, !forallb_app in Ha. simpl in Ha.
    rewrite (Hh c r eq_refl) in Ha. simpl in Ha.
    rewrite andb_false_r in Ha. discriminate.
Qed.

Lemma trimmed_strip (s : Py.str) : trimmed s -> Py.strip s = s.
Proof.
  intros (Hne & Hh & Hl).
  assert (L : forall t, (forall c r, t = c :: r -> Py.isspace c = false) ->
                        Py.lstrip t = t).
  { intros [|c r] H; simpl; [reflexivity|]. now rewrite (H c r eq_refl). }
  unfold Py.strip, Py.rstrip. rewrite (L s Hh), L.
  - apply rev_involutive.
  - intros c r Hc. apply (Hl c (rev r)).
    rewrite <- (rev_involutive s), Hc. reflexivity.
Qed.

End Strip.

(** ** [add_idea] *)

Section AddIdea.

Lemma add_idea_cases now cat text c :
  (Py.strip (Py.or_empty text) = []
   /\ add_idea now cat text c = (Py.Return (Py.Bool false), c))
  \/ (Py.strip (Py.or_empty text) <> [] /\ category_check cat = false
      /\ add_idea now cat text c
         = (Py.Raise (Py.IntegrityError Py.CheckCategory), c))
  \/ (Py.strip (Py.or_empty text) <> [] /\ category_check cat = true
      /\ add_idea now cat text c
         = (Py.Return (Py.Bool true),
            mk_conn (ideas c ++ [mk_idea (next_id id (seq_ideas c) (ideas c))
                                         cat (Py.strip (Py.or_empty text))
                                         0 now])
                    (votes c) (next_id id (seq_ideas c) (ideas c))
                    (seq_votes c) (foreign_keys c))).
Proof.
  unfold add_idea.
  destruct (Py.strip (Py.or_empty text)) as [|x s] eqn:E; simpl.
  - left. auto.
  - right. unfold bind, insert_idea.
    destruct (category_check cat) eqn:Ec; [right | left];
      repeat split; try discriminate; reflexivity.
Qed.

Lemma category_check_iff cat :
  category_check cat = true
  <-> cat = Py.lit "food" \/ cat = Py.lit "festival".
Proof.
  unfold category_check. now rewrite orb_true_iff, !eqb_eq.
Qed.

End AddIdea.

(** X1.  [add_idea] returns [False] exactly when the text is [None] or
    made of whitespace characters only, the empty text included; it
    then leaves the database as it is, whatever the category. *)
Theorem add_idea_refuses_blank (now : Z) (cat : Py.str)
        (text : option Py.str) (c : conn) :
  (result (add_idea now cat text) c = Py.Return (Py.Bool false)
   <-> forallb Py.isspace (Py.or_empty text) = true)
  /\ (forallb Py.isspace (Py.or_empty text) = true ->
      after (add_idea now cat text) c = c).
Proof.
  rewrite <- strip_nil_iff. unfold result, after.
  destruct (add_idea_cases now cat text c)
    as [[E ->]|[(E & _ & ->)|(E & _ & ->)]]; simpl;
    (split; [split|]); congruence.
Qed.

Lemma add_idea_refuses_blank_witness :
  forallb Py.isspace (Py.or_empty (Some (Py.lit "   "))) = true
  /\ after (add_idea 10 food (Some (Py.lit "   "))) voted_idea = voted_idea.
Proof.
  split; [reflexivity|].
  apply (proj2 (add_idea_refuses_blank 10 food (Some (Py.lit "   "))
                                       voted_idea)).
  reflexivity.
Defined.

(** X2.  With text that is not blank and a category other than "food"
    and "festival", [add_idea] raises the [IntegrityError] of the CHECK
    constraint of the ideas table, and the database is left as it
    was. *)
Theorem add_idea_unknown_category (now : Z) (cat : Py.str)
        (text : option Py.str) (c : conn) :
  cat <> Py.lit "food" -> cat <> Py.lit "festival" ->
  forallb Py.isspace (Py.or_empty text) = false ->
  add_idea now cat text c
  = (Py.Raise (Py.IntegrityError Py.CheckCategory), c).
Proof.
  intros H1 H2 Hb.
  assert (Hc : category_check cat = false).
  { destruct (category_check cat) eqn:E; [|reflexivity].
    apply category_check_iff in E. tauto. }
  assert (Hs : Py.strip (Py.or_empty text) <> []).
  { intros E. apply strip_nil_iff in E. congruence. }
  destruct (add_idea_cases now cat text c)
    as [[E _]|[(_ & _ & ->)|(_ & E & _)]]; congruence.
Qed.

Lemma add_idea_unknown_category_witness :
  Py.lit "drinks" <> Py.lit "food"
  /\ Py.lit "drinks" <> Py.lit "festival"
  /\ add_idea 10 (Py.lit "drinks") (Some pizza) voted_idea
     = (Py.Raise (Py.IntegrityError Py.CheckCategory), voted_idea).
Proof.
  split; [discriminate|]. split; [discriminate|].
  apply (add_idea_unknown_category 10 (Py.lit "drinks") (Some pizza)
                                   voted_idea);
    [discriminate | discriminate | reflexivity].
Defined.

(** ** The rows of the ideas table *)

Section Rows.

(** A row of the ideas table after a call was there before the call, or
    is the row [add_idea] has just made. *)
Lemma run_call_rows now k c r :
  In r (ideas (after (run_call now k) c)) ->
  In r (ideas c)
  \/ exists cat text,
       k = AddIdea cat text
       /\ category_check cat = true
       /\ Py.strip (Py.or_empty text) <> []
       /\ r = mk_idea (next_id id (seq_ideas c) (ideas c)) cat
                      (Py.strip (Py.or_empty text)) 0 now.
Proof.
  destruct k as [cat text|i u|i]; unfold after; simpl.
  - destruct (add_idea_cases now cat text c)
      as [[E ->]|[(E & Ec & ->)|(E & Ec & ->)]]; simpl; auto.
    intros H. apply in_app_or in H as [H|[<-|[]]]; [auto|].
    right. exists cat, text. auto.
  - rewrite toggle_vote_pair. simpl. unfold after.
    unfold toggle_vote, bind, toggle_vote_act, toggle_vote_insert,
      try_except_IntegrityError_pass, insert_vote.
    destruct (select_vote_id i u c); simpl; auto.
    destruct (existsb _ _); simpl; auto.
    destruct (foreign_keys c && negb (idea_exists i c)); simpl; auto.
  - intros H. apply filter_In in H as [H _]. auto.
Qed.

Lemma run_call_seq_ideas now k c :
  seq_ideas c <= seq_ideas (after (run_call now k) c).
Proof.
  destruct k as [cat text|i u|i]; unfold after; simpl.
  - destruct (add_idea_cases now cat text c)
      as [[E ->]|[(E & Ec & ->)|(E & Ec & ->)]]; simpl; try lia.
    pose proof (next_id_above id (seq_ideas c) (ideas c)) as [H _]. lia.
  - unfold toggle_vote, bind, toggle_vote_act, toggle_vote_insert,
      try_except_IntegrityError_pass, insert_vote.
    destruct (select_vote_id i u c); simpl; try lia.
    destruct (existsb _ _); simpl; try lia.
    destruct (foreign_keys c && negb (idea_exists i c)); simpl; lia.
  - lia.
Qed.

Lemma run_calls_later_rows ks c r :
  In r (ideas (run_calls ks c)) -> In r (ideas c) \/ seq_ideas c < id r.
Proof.
  revert c. induction ks as [|[now k] ks IH]; simpl; intros c H; [auto|].
  pose proof (run_call_seq_ideas now k c) as Hseq.
  destruct (IH _ H) as [Hin|Hlt]; [|right; lia].
  destruct (run_call_rows now k c r Hin)
    as [Hc|(cat & text & _ & _ & _ & ->)]; [auto|].
  right. simpl. apply next_id_above.
Qed.

Lemma reachable_contents_trimmed c :
  reachable c -> Forall (fun r => trimmed (content r)) (ideas c).
Proof.
  induction 1 as [|c Hr IH|c now k Hr IH]; simpl; auto.
  rewrite Forall_forall in *. intros r Hin.
  destruct (run_call_rows now k c r Hin)
    as [Hc|(cat & text & _ & _ & Hne & ->)]; [auto|]. simpl.
  destruct (strip_split (Py.or_empty text)) as (_ & _ & _ & _ & _ & [E|T]);
    [contradiction | assumption].
Qed.

End Rows.

(** X3.  In every reachable state, the content of every idea is not
    empty and has no whitespace character at its beginning or its end,
    and its category is "food" or "festival". *)
Theorem ideas_well_formed (c : conn) (r : idea) :
  reachable c -> In r (ideas c) ->
  trimmed (content r)
  /\ Py.strip (content r) = content r
  /\ (category r = Py.lit "food" \/ category r = Py.lit "festival").
Proof.
  intros Hr Hin.
  pose proof (reachable_contents_trimmed c Hr) as Ht.
  pose proof (categories_checked c (reachable_consistent c Hr)) as Hc.
  rewrite Forall_forall in Ht, Hc.
  split; [now apply Ht|]. split; [now apply trimmed_strip, Ht|].
  now apply category_check_iff, Hc.
Qed.

(** X4.  Ids of ideas are never given twice, and rows of ideas are never
    changed: in a reachable state every idea has a positive id no
    larger than the counter of the table, and after any further calls
    every idea of the table is one of the rows of now, as it is now, or
    has an id above the counter of now. *)
Theorem idea_ids_never_reused (c : conn) :
  reachable c ->
  (forall r, In r (ideas c) -> 0 < id r <= seq_ideas c)
  /\ NoDup (map id (ideas c))
  /\ (forall ks r,
         In r (ideas (run_calls ks c)) ->
         In r (ideas c) \/ seq_ideas c < id r).
Proof.
  intros Hr. pose proof (reachable_consistent c Hr) as Hc.
  split; [apply Forall_forall, Hc|]. split; [apply Hc|].
  intros ks r. apply run_calls_later_rows.
Qed.

Lemma ideas_well_formed_witness :
  reachable voted_idea
  /\ In (mk_idea 1 food pizza 0 10) (ideas voted_idea)
  /\ Py.strip pizza = pizza.
Proof.
  assert (H : reachable voted_idea) by apply reachable_run_calls, reach_new.
  assert (Hin : In (mk_idea 1 food pizza 0 10) (ideas voted_idea))
    by (left; reflexivity).
  split; [exact H|]. split; [exact Hin|].
  exact (proj1 (proj2 (ideas_well_formed voted_idea _ H Hin))).
Defined.

Lemma idea_ids_never_reused_witness :
  reachable deleted_idea
  /\ (In (mk_idea 2 food pizza 0 20)
         (ideas (run_calls [(20, AddIdea food (Some pizza))] deleted_idea))
      -> In (mk_idea 2 food pizza 0 20) (ideas deleted_idea)
         \/ seq_ideas deleted_idea < 2).
Proof.
  assert (H : reachable deleted_idea) by apply reachable_run_calls, reach_new.
  split; [exact H|].
  exact (proj2 (proj2 (idea_ids_never_reused deleted_idea H))
               [(20, AddIdea food (Some pizza))]
               (mk_idea 2 food pizza 0 20)).
Defined.

(** ** The list of [fetch_ideas] *)

Section Listing.

Lemma fetch_ideas_ext cat u c c' :
  ideas c = ideas c' -> votes c = votes c' ->
  fetch_ideas cat u c = fetch_ideas cat u c'.
Proof.
  intros Hi Hv. unfold fetch_ideas, select_ideas, result_set.
  now rewrite Hi, Hv.
Qed.

Lemma item_ids_closed_form cat u c :
  consistent c ->
  Permutation (map item_id (fetch_ideas cat u c))
              (map id (filter (fun i => Py.eqb (category i) cat) (ideas c))).
Proof.
  intros Hc. rewrite fetch_ideas_closed_form by assumption.
  rewrite map_map. simpl.
  transitivity (map r_id (map (row_of u c)
                  (filter (fun i => Py.eqb (category i) cat) (ideas c)))).
  - apply Permutation_map, order_by_perm.
  - rewrite map_map. simpl. reflexivity.
Qed.

Lemma food_not_festival : Py.eqb (Py.lit "food") (Py.lit "festival") = false.
Proof. reflexivity. Qed.

Lemma two_categories_lengths (l : list idea) :
  Forall (fun r => category_check (category r) = true) l ->
  (List.length (filter (fun i => Py.eqb (category i) (code FOOD)) l)
   + List.length (filter (fun i => Py.eqb (category i) (code FESTIVAL)) l)
   = List.length l)%nat.
Proof.
  induction 1 as [|r l Hr Hl IH]; simpl; [reflexivity|].
  apply category_check_iff in Hr.
  change (code FOOD) with (Py.lit "food") in *.
  change (code FESTIVAL) with (Py.lit "festival") in *.
  destruct Hr as [-> | ->].
  - rewrite eqb_refl, food_not_festival. simpl. lia.
  - rewrite eqb_refl.
    replace (Py.eqb (Py.lit "festival") (Py.lit "food")) with false
      by reflexivity.
    simpl. lia.
Qed.

End Listing.

(** X5.  In every reachable state [fetch_ideas] lists every idea of the
    category asked for exactly once, and no other idea: the ids of its
    items are, in some order, the ids of the rows of that category,
    without repetition. *)
Theorem fetch_ideas_each_idea_once (cat u : Py.str) (c : conn) :
  reachable c ->
  NoDup (map item_id (fetch_ideas cat u c))
  /\ Permutation
       (map item_id (fetch_ideas cat u c))
       (map id (filter (fun i => Py.eqb (category i) cat) (ideas c))).
Proof.
  intros Hr. pose proof (reachable_consistent c Hr) as Hc.
  pose proof (item_ids_closed_form cat u c Hc) as Hp.
  split; [|exact Hp].
  apply (Permutation_NoDup (Permutation_sym Hp)).
  apply NoDup_map_filter, Hc.
Qed.

Lemma fetch_ideas_each_idea_once_witness :
  reachable (abc_board 1 2 3)
  /\ NoDup (map item_id (fetch_ideas food u1 (abc_board 1 2 3))).
Proof.
  assert (H : reachable (abc_board 1 2 3))
    by apply reachable_run_calls, reach_new.
  split; [exact H|].
  exact (proj1 (fetch_ideas_each_idea_once food u1 (abc_board 1 2 3) H)).
Defined.

(** X6.  In every reachable state the two lists the page shows, that of
    "food" and that of "festival", together hold as many items as the
    ideas table has rows, and no idea is in both. *)
Theorem two_lists_cover_ideas (u : Py.str) (c : conn) :
  reachable c ->
  (List.length (fetch_ideas (code FOOD) u c)
   + List.length (fetch_ideas (code FESTIVAL) u c)
   = List.length (ideas c))%nat
  /\ (forall e e',
         In e (fetch_ideas (code FOOD) u c) ->
         In e' (fetch_ideas (code FESTIVAL) u c) ->
         item_id e <> item_id e').
Proof.
  intros Hr. pose proof (reachable_consistent c Hr) as Hc. split.
  - rewrite !fetch_ideas_closed_form by assumption.
    rewrite !length_map.
    rewrite !(Permutation_length (order_by_perm _)), !length_map.
    apply two_categories_lengths, Hc.
  - intros e e' He He' Heq.
    apply fetch_ideas_In in He as (i & Hi & Hcat & ->).
    apply fetch_ideas_In in He' as (i' & Hi' & Hcat' & ->).
    simpl in Heq.
    assert (i = i').
    { pose proof (unique_idea_ids c Hc) as Hnd. clear - Hnd Hi Hi' Heq.
      induction (ideas c) as [|x l IH]; simpl in *; [tauto|].
      inversion Hnd as [|? ? Hx Hl]; subst.
      destruct Hi as [->|Hi], Hi' as [->|Hi']; auto.
      - exfalso. apply Hx. rewrite Heq. now apply in_map.
      - exfalso. apply Hx. rewrite <- Heq. now apply in_map. }
    subst i'. rewrite Hcat in Hcat'. discriminate.
Qed.

Lemma two_lists_cover_ideas_witness :
  reachable (abc_board 1 2 3)
  /\ (List.length (fetch_ideas (code FOOD) u1 (abc_board 1 2 3))
      + List.length (fetch_ideas (code FESTIVAL) u1 (abc_board 1 2 3))
      = List.length (ideas (abc_board 1 2 3)))%nat.
Proof.
  assert (H : reachable (abc_board 1 2 3))
    by apply reachable_run_calls, reach_new.
  split; [exact H|].
  exact (proj1 (two_lists_cover_ideas u1 (abc_board 1 2 3) H)).
Defined.

(** ** What [toggle_vote] and [delete_idea] leave alone *)

Section Frames.

Lemma existsb_filter_irrelevant {A} (p q : A -> bool) (l : list A) :
  (forall x, In x l -> q x = false -> p x = false) ->
  existsb p (filter q l) = existsb p l.
Proof.
  induction l as [|x l IH]; simpl; intros H; [reflexivity|].
  rewrite <- IH by auto.
  destruct (q x) eqn:E; simpl; [reflexivity|].
  now rewrite (H x (or_introl eq_refl) E).
Qed.

Lemma filter_filter_irrelevant {A} (p q : A -> bool) (l : list A) :
  (forall x, In x l -> q x = false -> p x = false) ->
  filter p (filter q l) = filter p l.
Proof.
  induction l as [|x l IH]; simpl; intros H; [reflexivity|].
  rewrite <- IH by auto.
  destruct (q x) eqn:E; simpl; [reflexivity|].
  now rewrite (H x (or_introl eq_refl) E).
Qed.

Lemma same_vote_id (vs : list vote) (v w : vote) :
  NoDup (map vote_id vs) -> In v vs -> In w vs ->
  vote_id w = vote_id v -> w = v.
Proof.
  induction vs as [|x vs IH]; simpl; [tauto|].
  intros Hnd Hv Hw Heq. inversion Hnd as [|? ? Hx Hvs]; subst.
  destruct Hv as [->|Hv], Hw as [->|Hw]; auto.
  - exfalso. apply Hx. rewrite <- Heq. now apply in_map.
  - exfalso. apply Hx. rewrite Heq. now apply in_map.
Qed.

Lemma toggle_vote_ideas now i u c :
  ideas (after (toggle_vote now i u) c) = ideas c
  /\ seq_ideas (after (toggle_vote now i u) c) = seq_ideas c.
Proof.
  unfold after, toggle_vote, bind, toggle_vote_act, toggle_vote_insert,
    try_except_IntegrityError_pass, insert_vote.
  destruct (select_vote_id i u c); simpl; auto.
  destruct (existsb _ _); simpl; auto.
  destruct (foreign_keys c && negb (idea_exists i c)); simpl; auto.
Qed.

Lemma toggle_vote_other_pair now i u c i' u' :
  consistent c -> (i', u') <> (i, u) ->
  has_voted i' u' (after (toggle_vote now i u) c) = has_voted i' u' c.
Proof.
  intros Hc Hne. unfold after. rewrite !has_voted_existsb.
  destruct (select_vote_id i u c) as [k|] eqn:Hs.
  - rewrite (toggle_vote_present now _ _ _ _ Hs). simpl.
    apply select_vote_id_Some in Hs as (_ & v & Hin & Hk & <-).
    apply existsb_filter_irrelevant. intros w Hw Hq.
    apply negb_false_iff, Z.eqb_eq in Hq.
    rewrite (same_vote_id _ v w (unique_vote_ids c Hc) Hin Hw Hq).
    destruct (vote_matches i' u' v) eqn:E; [|reflexivity].
    apply vote_matches_key in E. congruence.
  - apply select_vote_id_None in Hs.
    rewrite (toggle_vote_absent now _ _ _ Hs (pragma_off c Hc)). simpl.
    rewrite existsb_app. simpl. rewrite orb_false_r.
    destruct (vote_matches i' u' _) eqn:E; [|apply orb_false_r].
    apply vote_matches_key in E. unfold vote_key in E. simpl in E.
    congruence.
Qed.

Lemma toggle_vote_other_idea now i u c i' :
  consistent c -> i' <> i ->
  count_votes i' (votes (after (toggle_vote now i u) c))
  = count_votes i' (votes c).
Proof.
  intros Hc Hne. unfold after, count_votes.
  destruct (select_vote_id i u c) as [k|] eqn:Hs.
  - rewrite (toggle_vote_present now _ _ _ _ Hs). simpl.
    apply select_vote_id_Some in Hs as (_ & v & Hin & Hk & <-).
    rewrite filter_filter_irrelevant; [reflexivity|].
    intros w Hw Hq. apply negb_false_iff, Z.eqb_eq in Hq.
    rewrite (same_vote_id _ v w (unique_vote_ids c Hc) Hin Hw Hq).
    inversion Hk. apply Z.eqb_neq. congruence.
  - apply select_vote_id_None in Hs.
    rewrite (toggle_vote_absent now _ _ _ Hs (pragma_off c Hc)). simpl.
    rewrite filter_app. simpl.
    destruct (Z.eqb_spec i i'); [congruence|]. now rewrite app_nil_r.
Qed.

End Frames.

(** X7.  In a reachable state a call of [toggle_vote i u] touches the
    one pair only: the ideas table is as before, [has_voted] answers as
    before for every other pair of idea and session, and every other
    idea has as many votes as before. *)
Theorem toggle_vote_touches_one_pair (c : conn) (now i : Z) (u : Py.str) :
  reachable c ->
  ideas (after (toggle_vote now i u) c) = ideas c
  /\ (forall i' u',
         (i', u') <> (i, u) ->
         has_voted i' u' (after (toggle_vote now i u) c)
         = has_voted i' u' c)
  /\ (forall i',
         i' <> i ->
         count_votes i' (votes (after (toggle_vote now i u) c))
         = count_votes i' (votes c)).
Proof.
  intros Hr. pose proof (reachable_consistent c Hr) as Hc.
  split; [apply toggle_vote_ideas|].
  split; intros; [now apply toggle_vote_other_pair
                 | now apply toggle_vote_other_idea].
Qed.

Lemma toggle_vote_touches_one_pair_witness :
  reachable voted_idea
  /\ ((1, u2) <> (1, u1) ->
      has_voted 1 u2 (after (toggle_vote 14 1 u1) voted_idea)
      = has_voted 1 u2 voted_idea).
Proof.
  assert (H : reachable voted_idea) by apply reachable_run_calls, reach_new.
  split; [exact H|].
  exact (proj1 (proj2 (toggle_vote_touches_one_pair voted_idea 14 1 u1 H))
               1 u2).
Defined.

(** X9.  The button the list shows tells what a press will do: in a
    reachable state, when session [u] presses the button of an item of
    its list, the next list of that session has the idea with [i_voted]
    turned over and one vote less if it was [True], one more if it was
    [False], its content and creation time as they were. *)
Theorem toggle_vote_then_list (c : conn) (now : Z) (cat u : Py.str)
        (e : item) :
  reachable c ->
  In e (fetch_ideas cat u c) ->
  In (mk_item (item_id e) (item_content e)
              (item_votes e + (if item_i_voted e then -1 else 1))
              (item_created_at e) (negb (item_i_voted e)))
     (fetch_ideas cat u (after (toggle_vote now (item_id e) u) c)).
Proof.
  intros Hr He. pose proof (reachable_consistent c Hr) as Hc.
  apply fetch_ideas_In in He as (i & Hi & Hcat & ->). simpl.
  rewrite <- (toggle_vote_count now (id i) u c Hc).
  rewrite <- (toggle_vote_flips now (id i) u c Hc).
  apply (fetch_ideas_lists cat u _ i); [|assumption].
  now rewrite (proj1 (toggle_vote_ideas now (id i) u c)).
Qed.

Lemma toggle_vote_then_list_witness :
  reachable voted_idea
  /\ In (mk_item 1 pizza 3 10 true) (fetch_ideas food u1 voted_idea)
  /\ In (mk_item 1 pizza 2 10 false)
        (fetch_ideas food u1 (after (toggle_vote 14 1 u1) voted_idea)).
Proof.
  assert (H : reachable voted_idea) by apply reachable_run_calls, reach_new.
  assert (Hin : In (mk_item 1 pizza 3 10 true)
                   (fetch_ideas food u1 voted_idea))
    by (left; reflexivity).
  split; [exact H|]. split; [exact Hin|].
  exact (toggle_vote_then_list voted_idea 14 food u1 _ H Hin).
Defined.

Section DeleteListing.

Lemma Permutation_filter_both {A} (f : A -> bool) (l l' : list A) :
  Permutation l l' -> Permutation (filter f l) (filter f l').
Proof.
  induction 1 as [|x l l' H IH|x y l|l l' l'' H IH H' IH']; simpl.
  - constructor.
  - destruct (f x); [now constructor | assumption].
  - destruct (f x), (f y); try reflexivity. apply perm_swap.
  - now transitivity (filter f l').
Qed.

Lemma StronglySorted_filter {A} (R : A -> A -> Prop) (f : A -> bool)
      (l : list A) :
  StronglySorted R l -> StronglySorted R (filter f l).
Proof.
  induction 1 as [|x l Hl IH Hx]; simpl; [constructor|].
  destruct (f x); [|assumption]. constructor; [assumption|].
  rewrite Forall_forall in *. intros y Hy.
  apply filter_In in Hy as [Hy _]. auto.
Qed.

Lemma row_of_votes u c c' i :
  votes c = votes c' -> row_of u c i = row_of u c' i.
Proof.
  intros H. unfold row_of, has_voted, select_one_vote. now rewrite H.
Qed.

(** Sorting after dropping the rows of one id is dropping them after
    sorting. *)
Lemma order_by_filter (i : Z) (l : list result_row) :
  NoDup (map r_id l) ->
  order_by (filter (fun r => negb (r_id r =? i)) l)
  = filter (fun r => negb (r_id r =? i)) (order_by l).
Proof.
  intros Hnd. symmetry. apply order_by_unique.
  - now apply NoDup_map_filter.
  - apply Permutation_filter_both. symmetry. apply order_by_perm.
  - apply StronglySorted_filter, order_by_sorted.
Qed.

Lemma delete_idea_list i cat u c :
  consistent c ->
  fetch_ideas cat u (after (delete_idea i) c)
  = filter (fun e => negb (item_id e =? i)) (fetch_ideas cat u c).
Proof.
  intros Hc.
  pose proof (consistent_delete_idea i c Hc) as Hc'.
  rewrite (fetch_ideas_closed_form cat u _ Hc').
  rewrite (fetch_ideas_closed_form cat u c Hc).
  rewrite (delete_idea_pragma_off i c (pragma_off c Hc)). simpl.
  rewrite filter_map_swap. simpl. f_equal.
  rewrite <- order_by_filter.
  - f_equal. rewrite filter_map_swap. simpl.
    rewrite !filter_filter.
    erewrite map_ext; [erewrite filter_ext; [reflexivity|]|].
    + intros r. simpl. apply andb_comm.
    + intros r. now apply row_of_votes.
  - rewrite map_map. simpl. apply NoDup_map_filter, Hc.
Qed.

End DeleteListing.

(** X8.  In a reachable state [delete_idea i] takes the item of idea
    [i] out of every list and changes nothing else in it: the other
    items keep their order, their votes and their [i_voted]. *)
Theorem delete_idea_removes_one_item (c : conn) (i : Z) (cat u : Py.str) :
  reachable c ->
  fetch_ideas cat u (after (delete_idea i) c)
  = filter (fun e => negb (item_id e =? i)) (fetch_ideas cat u c).
Proof.
  intros Hr. apply delete_idea_list. now apply reachable_consistent.
Qed.

Lemma delete_idea_removes_one_item_witness :
  reachable (abc_board 1 2 3)
  /\ map item_id (fetch_ideas food u1 (after (delete_idea 1)
                                             (abc_board 1 2 3)))
     = [3; 2].
Proof.
  assert (H : reachable (abc_board 1 2 3))
    by apply reachable_run_calls, reach_new.
  split; [exact H|].
  rewrite (delete_idea_removes_one_item (abc_board 1 2 3) 1 food u1 H).
  reflexivity.
Defined.

(** ** Calls that undo one another *)

Section RoundTrips.

Lemma filter_below {A} (key : A -> Z) (k : Z) (l : list A) :
  (forall r, In r l -> key r < k) ->
  filter (fun r => negb (key r =? k)) l = l.
Proof.
  intros H. apply filter_negb_none.
  destruct (existsb _ l) eqn:E; [|reflexivity].
  apply existsb_exists in E as (r & Hr & Heq). apply Z.eqb_eq in Heq.
  specialize (H r Hr). lia.
Qed.

Lemma toggle_twice_votes t t' i u c :
  consistent c -> has_voted i u c = false ->
  votes (toggle_times [t; t'] i u c) = votes c
  /\ ideas (toggle_times [t; t'] i u c) = ideas c.
Proof.
  intros Hc Hv. cbn [toggle_times]. unfold after at 2 4.
  rewrite (toggle_vote_absent t i u c Hv (pragma_off c Hc)). simpl.
  set (k := next_id vote_id (seq_votes c) (votes c)).
  set (c1 := mk_conn _ _ _ _ _).
  assert (Hs : select_vote_id i u c1 = Some k).
  { unfold select_vote_id, c1. simpl. rewrite filter_app.
    rewrite has_voted_existsb in Hv. apply filter_nil_existsb in Hv.
    rewrite Hv. simpl. unfold vote_matches. simpl.
    now rewrite Z.eqb_refl, eqb_refl. }
  unfold after. rewrite (toggle_vote_present t' i u c1 k Hs). simpl.
  split; [|reflexivity].
  rewrite filter_app. simpl. rewrite Z.eqb_refl. simpl.
  rewrite app_nil_r. apply filter_below.
  apply (next_id_above vote_id (seq_votes c) (votes c)).
Qed.

Lemma voters_NoDup i vs :
  NoDup (map vote_key vs) ->
  NoDup (map user_id (filter (fun v => idea_id v =? i) vs)).
Proof.
  induction vs as [|x vs IH]; simpl; intros H; [constructor|].
  inversion H as [|? ? Hx Hvs]; subst.
  destruct (Z.eqb_spec (idea_id x) i) as [Hi|Hi]; simpl; auto.
  constructor; auto. intros Hin. apply Hx.
  apply in_map_iff in Hin as (w & Hu & Hw).
  apply filter_In in Hw as [Hw Hiw]. apply Z.eqb_eq in Hiw.
  apply in_map_iff. exists w. split; [|assumption].
  unfold vote_key. congruence.
Qed.

End RoundTrips.

(** X10.  In a reachable state, adding an idea and then deleting it
    gives back the ideas table and the votes table as they were, and
    with them every list; only the counter of ids has moved on. *)
Theorem add_then_delete (c : conn) (k : category_code) (now : Z)
        (text : option Py.str) :
  reachable c ->
  forallb Py.isspace (Py.or_empty text) = false ->
  let new := next_id id (seq_ideas c) (ideas c) in
  let c' := after (delete_idea new) (after (add_idea now (code k) text) c) in
  ideas c' = ideas c
  /\ votes c' = votes c
  /\ seq_ideas c' = new
  /\ (forall cat u, fetch_ideas cat u c' = fetch_ideas cat u c).
Proof.
  intros Hr Hb new c'. pose proof (reachable_consistent c Hr) as Hc.
  assert (Hs : Py.strip (Py.or_empty text) <> []).
  { intros E. apply strip_nil_iff in E. congruence. }
  assert (Hi : ideas c' = ideas c /\ votes c' = votes c
               /\ seq_ideas c' = new).
  { assert (E1 : after (add_idea now (code k) text) c
                 = mk_conn (ideas c ++ [mk_idea new (code k)
                                          (Py.strip (Py.or_empty text))
                                          0 now])
                           (votes c) new (seq_votes c) (foreign_keys c))
      by (unfold after; now rewrite (add_idea_not_blank now k text c Hs)).
    subst c'. rewrite E1.
    rewrite delete_idea_pragma_off by (simpl; apply Hc). simpl.
    rewrite filter_app. simpl. fold new. rewrite Z.eqb_refl. simpl.
    rewrite app_nil_r. repeat split.
    apply filter_below. apply (next_id_above id (seq_ideas c) (ideas c)). }
  destruct Hi as (Hi & Hv & Hq). repeat split; auto.
  intros cat u. now apply fetch_ideas_ext.
Qed.

Lemma add_then_delete_witness :
  reachable voted_idea
  /\ forallb Py.isspace (Py.or_empty (Some (Py.lit " tacos "))) = false
  /\ ideas (after (delete_idea 2)
                  (after (add_idea 20 food (Some (Py.lit " tacos ")))
                         voted_idea))
     = ideas voted_idea.
Proof.
  assert (H : reachable voted_idea) by apply reachable_run_calls, reach_new.
  split; [exact H|]. split; [reflexivity|].
  exact (proj1 (add_then_delete voted_idea FOOD 20
                                (Some (Py.lit " tacos ")) H eq_refl)).
Defined.

(** X11.  In a reachable state in which session [u] has no vote on idea
    [i], two calls of [toggle_vote i u] in a row give back the votes
    table as it was, row for row, and with it every list. *)
Theorem toggle_twice_restores (c : conn) (t t' i : Z) (u : Py.str) :
  reachable c ->
  has_voted i u c = false ->
  votes (toggle_times [t; t'] i u c) = votes c
  /\ ideas (toggle_times [t; t'] i u c) = ideas c
  /\ (forall cat u',
         fetch_ideas cat u' (toggle_times [t; t'] i u c)
         = fetch_ideas cat u' c).
Proof.
  intros Hr Hv. pose proof (reachable_consistent c Hr) as Hc.
  destruct (toggle_twice_votes t t' i u c Hc Hv) as [Hvs Hi].
  repeat split; auto. intros cat u'. now apply fetch_ideas_ext.
Qed.

Lemma toggle_twice_restores_witness :
  reachable voted_idea
  /\ has_voted 1 u4 voted_idea = false
  /\ votes (toggle_times [20; 21] 1 u4 voted_idea) = votes voted_idea.
Proof.
  assert (H : reachable voted_idea) by apply reachable_run_calls, reach_new.
  split; [exact H|]. split; [reflexivity|].
  exact (proj1 (toggle_twice_restores voted_idea 20 21 1 u4 H eq_refl)).
Defined.

(** X12.  In a reachable state the number of votes an item of the list
    carries is the number of distinct sessions that hold a vote on its
    idea: no session is counted twice. *)
Theorem votes_count_sessions (c : conn) (cat u : Py.str) (e : item) :
  reachable c ->
  In e (fetch_ideas cat u c) ->
  item_votes e = Z.of_nat (List.length (voters (item_id e) c))
  /\ (forall s, In s (voters (item_id e) c)
                <-> has_voted (item_id e) s c = true).
Proof.
  intros Hr He. pose proof (reachable_consistent c Hr) as Hc.
  apply fetch_ideas_In in He as (i & _ & _ & ->). simpl.
  unfold voters. split.
  - rewrite nodup_fixed_point by apply voters_NoDup, Hc.
    now rewrite length_map.
  - intros s. rewrite nodup_In, in_map_iff, has_voted_iff.
    split; intros (v & H1 & H2).
    + apply filter_In in H2 as [H2 H3]. apply Z.eqb_eq in H3. eauto.
    + destruct H2 as [H2 H3]. exists v. split; [assumption|].
      apply filter_In. split; [assumption | now apply Z.eqb_eq].
Qed.

Lemma votes_count_sessions_witness :
  reachable voted_idea
  /\ In (mk_item 1 pizza 3 10 true) (fetch_ideas food u1 voted_idea)
  /\ item_votes (mk_item 1 pizza 3 10 true)
     = Z.of_nat (List.length (voters 1 voted_idea)).
Proof.
  assert (H : reachable voted_idea) by apply reachable_run_calls, reach_new.
  assert (Hin : In (mk_item 1 pizza 3 10 true)
                   (fetch_ideas food u1 voted_idea))
    by (left; reflexivity).
  split; [exact H|]. split; [exact Hin|].
  exact (proj1 (votes_count_sessions voted_idea food u1 _ H Hin)).
Defined.

(** ** Threads never wait for ever *)

Section Progress.

Lemma sum_set_nth {A} (f : A -> nat) (l : list A) n x p :
  nth_error l n = Some p ->
  (list_sum (map f (set_nth n x l)) + f p
   = list_sum (map f l) + f x)%nat.
Proof.
  revert n. induction l as [|y l IH]; intros [|n]; simpl; try discriminate.
  - intros [= ->]. lia.
  - intros H. specialize (IH n H). lia.
Qed.

Lemma thread_step_decreases now p l c p' l' c' :
  thread_step now p l c = Some (p', l', c') ->
  (steps_left p' < steps_left p)%nat.
Proof.
  destruct p as [[cat text|i u|i]|[cat text|i u|i]|i u row|r|r]; simpl;
    repeat match goal with
           | |- context [if ?b then _ else _] => destruct b
           | |- context [match ?x with (_, _) => _ end] => destruct x
           | |- context [match ?x with Py.Return _ => _ | Py.Raise _ => _ end]
             => destruct x
           end;
    try discriminate; intros [= <- <- <-]; simpl; lia.
Qed.

Lemma step_decreases tick g g' :
  step tick g = Some g' ->
  (total_steps_left g' < total_steps_left g)%nat.
Proof.
  destruct tick as [n now]. intros H.
  apply step_inv in H as (p & p' & l' & c' & Hn & Ht & ->).
  apply thread_step_decreases in Ht. unfold total_steps_left. simpl.
  pose proof (sum_set_nth steps_left (threads g) n p' p Hn). lia.
Qed.

Lemma run_length schedule g g' :
  run schedule g = Some g' ->
  (List.length schedule + total_steps_left g' <= total_steps_left g)%nat.
Proof.
  revert g. induction schedule as [|tick rest IH]; cbn [run]; intros g H.
  - injection H as <-. simpl. lia.
  - destruct (step tick g) as [g1|] eqn:E; [|discriminate].
    apply step_decreases in E. specialize (IH g1 H). simpl. lia.
Qed.

Lemma total_steps_start c calls :
  total_steps_left (start c calls) = (4 * List.length calls)%nat.
Proof.
  unfold total_steps_left, start. simpl.
  induction calls as [|k calls IH]; simpl in *; lia.
Qed.

Lemma count_pos_exists {A} (f : A -> bool) (l : list A) :
  (1 <= List.length (filter f l))%nat ->
  exists n p, nth_error l n = Some p /\ f p = true.
Proof.
  induction l as [|x l IH]; simpl; [lia|].
  destruct (f x) eqn:E.
  - intros _. now exists 0%nat, x.
  - intros H. destruct (IH H) as (n & p & Hn & Hp). now exists (S n), p.
Qed.

Lemma not_all_exists {A} (f : A -> bool) (l : list A) :
  forallb f l = false -> exists n p, nth_error l n = Some p /\ f p = false.
Proof.
  induction l as [|x l IH]; simpl; [discriminate|].
  destruct (f x) eqn:E.
  - intros H. destruct (IH H) as (n & p & Hn & Hp). now exists (S n), p.
  - intros _. now exists 0%nat, x.
Qed.

Lemma can_step n p now g :
  nth_error (threads g) n = Some p ->
  thread_step now p (lock g) (store g) <> None ->
  exists g', step (n, now) g = Some g'.
Proof.
  intros Hn Ht. unfold step. rewrite Hn.
  destruct (thread_step now p (lock g) (store g)) as [[[p' l'] c']|];
    [eauto | congruence].
Qed.

(** Unless every call is over, some thread can take a step. *)
Lemma safe_progress g :
  safe g -> all_finished g = false ->
  exists n now g', step (n, now) g = Some g'.
Proof.
  intros Hs Hf. unfold all_finished in Hf.
  destruct (not_all_exists _ _ Hf) as (n & p & Hn & Hp).
  destruct (lock g) eqn:El.
  - pose proof (lock_holder g Hs) as Hc. rewrite El in Hc.
    destruct (count_pos_exists critical (threads g)) as (m & q & Hm & Hq).
    { unfold in_critical in Hc. simpl in Hc. lia. }
    exists m, 0. apply (can_step m q); [assumption|].
    destruct q as [k|[cat text|i u|i]|i u row|r|r]; simpl in *;
      try discriminate;
      repeat match goal with
             | |- context [match ?x with (_, _) => _ end] => destruct x
             | |- context [match ?x with Py.Return _ => _ | Py.Raise _ => _ end]
               => destruct x
             end; discriminate.
  - assert (Hq : critical p = false).
    { destruct (critical p) eqn:E; [|reflexivity].
      pose proof (critical_holds_lock g n p Hs Hn E). congruence. }
    exists n, 0. apply (can_step n p); [assumption|]. rewrite El.
    destruct p as [[cat text|i u|i]|k|i u row|r|r]; simpl in *;
      try discriminate.
    destruct (blank text); discriminate.
Qed.

Lemma finished_not_critical p : finished p = true -> critical p = false.
Proof. destruct p; simpl; congruence. Qed.

Lemma all_finished_lock_free g :
  safe g -> all_finished g = true -> lock g = false.
Proof.
  intros Hs Hf. destruct (lock g) eqn:El; [|reflexivity].
  pose proof (lock_holder g Hs) as Hc. rewrite El in Hc.
  destruct (count_pos_exists critical (threads g)) as (m & q & Hm & Hq).
  { unfold in_critical in Hc. simpl in Hc. lia. }
  unfold all_finished in Hf. rewrite forallb_forall in Hf.
  pose proof (Hf q (nth_error_In _ _ Hm)) as Hfq.
  apply finished_not_critical in Hfq. congruence.
Qed.

End Progress.

(** X13.  However many threads call the three writing functions, and
    however they are scheduled: the threads take at most four steps per
    call in all; as long as some call is not over, some thread can take
    a step, so no thread waits for the lock for ever; and when every
    call is over the lock is free, also after a call that raised. *)
Theorem calls_always_finish (c : conn) (calls : list call)
        (schedule : list (nat * Z)) (g : config) :
  run schedule (start c calls) = Some g ->
  (List.length schedule + total_steps_left g <= 4 * List.length calls)%nat
  /\ (all_finished g = true -> lock g = false)
  /\ (all_finished g = false ->
      exists n now g', step (n, now) g = Some g').
Proof.
  intros Hr. pose proof (safe_run _ _ _ (safe_start c calls) Hr) as Hs.
  split; [|split].
  - rewrite <- total_steps_start with (c := c). now apply run_length.
  - now apply all_finished_lock_free.
  - now apply safe_progress.
Qed.

Lemma calls_always_finish_witness :
  exists g,
    run (one_then_other 30 31) (two_toggles (get_conn None) 1 u1) = Some g
    /\ (List.length (one_then_other 30 31) + total_steps_left g
        <= 4 * 2)%nat.
Proof.
  eexists. split; [reflexivity|].
  apply (calls_always_finish (get_conn None)
           [ToggleVote 1 u1; ToggleVote 1 u1] (one_then_other 30 31)).
  reflexivity.
Defined.

(** ** The page *)

Import Ui.

Section Page.

Lemma code_checked k : category_check (code k) = true.
Proof. now destruct k. Qed.

Lemma render_form_effect k now ev c :
  render_form k now ev c
  = match submitted ev k with
    | None => (Py.Return ([], false), c)
    | Some text =>
        if blank (Some text) then (Py.Return ([Warning], false), c)
        else (Py.Return ([Toast], true),
              after (add_idea now (code k) (Some text)) c)
    end.
Proof.
  unfold render_form. destruct (submitted ev k) as [text|]; [|reflexivity].
  unfold bind, blank, after.
  destruct (add_idea_cases now (code k) (Some text) c)
    as [[E ->]|[(E & Ec & _)|(E & _ & ->)]].
  - now rewrite E.
  - rewrite code_checked in Ec. discriminate.
  - destruct (Py.strip (Py.or_empty (Some text))); [congruence|reflexivity].
Qed.

Lemma render_rows_effect k user now ev items c :
  exists els,
    render_rows k user now ev items c
    = match pressed user ev k with
      | Some (i, kk) =>
          if existsb (fun e => item_id e =? i) items
          then (Py.Return (els, true), after (run_call now kk) c)
          else (Py.Return (els, false), c)
      | None => (Py.Return (els, false), c)
      end.
Proof.
  induction items as [|e rest (els & IH)]; cbn [render_rows existsb].
  - exists []. destruct (pressed user ev k) as [[i kk]|]; reflexivity.
  - destruct ev as [|k' text|k' i|k' i]; cbn [pressed] in *;
      cbn [vote_pressed delete_pressed].
    + unfold bind. rewrite IH. eexists. reflexivity.
    + unfold bind. rewrite IH. eexists. reflexivity.
    + destruct (same_code k' k); cbn [andb].
      * rewrite (Z.eqb_sym i (item_id e)).
        destruct (item_id e =? i) eqn:E; cbn [orb].
        -- apply Z.eqb_eq in E. subst i. unfold bind.
           rewrite toggle_vote_pair. eexists. reflexivity.
        -- unfold bind. rewrite IH.
           destruct (existsb _ rest); eexists; reflexivity.
      * unfold bind. rewrite IH. eexists. reflexivity.
    + destruct (same_code k' k); cbn [andb].
      * rewrite (Z.eqb_sym i (item_id e)).
        destruct (item_id e =? i) eqn:E; cbn [orb].
        -- apply Z.eqb_eq in E. subst i. eexists. reflexivity.
        -- unfold bind. rewrite IH.
           destruct (existsb _ rest); eexists; reflexivity.
      * unfold bind. rewrite IH. eexists. reflexivity.
Qed.

Lemma render_list_effect k user now ev c :
  exists els,
    render_list k user now ev c
    = match pressed user ev k with
      | Some (i, kk) =>
          if listed k user i c
          then (Py.Return (els, true), after (run_call now kk) c)
          else (Py.Return (els, false), c)
      | None => (Py.Return (els, false), c)
      end.
Proof.
  unfold render_list, listed.
  destruct (fetch_ideas (code k) user c) as [|e rest] eqn:E.
  - exists [Info]. destruct (pressed user ev k) as [[i kk]|]; reflexivity.
  - apply render_rows_effect.
Qed.

Lemma submitted_not_pressed user ev k text :
  submitted ev k = Some text -> forall k', pressed user ev k' = None.
Proof. destruct ev; simpl; try discriminate. reflexivity. Qed.

(** What one run of [render_category] does to the database, and
    whether it ends by [st.rerun()]. *)
Lemma render_category_effect k user now ev c :
  exists els,
    render_category k user now ev c
    = match submitted ev k, pressed user ev k with
      | Some text, _ =>
          (Py.Return (els, negb (blank (Some text))),
           after (add_idea now (code k) (Some text)) c)
      | None, Some (i, kk) =>
          if listed k user i c
          then (Py.Return (els, true), after (run_call now kk) c)
          else (Py.Return (els, false), c)
      | None, None => (Py.Return (els, false), c)
      end.
Proof.
  unfold render_category, bind at 1. rewrite render_form_effect.
  destruct (submitted ev k) as [text|] eqn:Es.
  - destruct (blank (Some text)) eqn:Eb; cbn [fst snd].
    + unfold bind.
      destruct (render_list_effect k user now ev c) as [els ->].
      rewrite (submitted_not_pressed user ev k text Es).
      assert (Ea : after (add_idea now (code k) (Some text)) c = c).
      { unfold after, add_idea. unfold blank in Eb.
        apply negb_true_iff in Eb. now rewrite Eb. }
      rewrite Ea. eexists. reflexivity.
    + eexists. reflexivity.
  - cbn [fst snd]. unfold bind.
    destruct (render_list_effect k user now ev c) as [els ->].
    destruct (pressed user ev k) as [[i kk]|];
      [destruct (listed k user i c)|]; eexists; reflexivity.
Qed.

End Page.

Section Script.

Ltac effect_of k :=
  unfold bind at 1;
  match goal with
  | |- context [render_category k ?u ?n ?e ?c'] =>
      let els := fresh "els" in
      let E := fresh "E" in
      destruct (render_category_effect k u n e c') as [els E];
      cbn [submitted pressed same_code] in E;
      unfold blank in E; cbn [Py.or_empty] in E;
      rewrite ?negb_involutive in E;
      repeat match type of E with
             | context [if ?b then _ else _] => destruct b
             | context [Py.truthy ?t] => destruct (Py.truthy t)
             end;
      rewrite E; cbn [fst snd negb]
  end.

Lemma script_effect user now ev c :
  exists els,
    script user now ev c
    = (Py.Return (els, reruns user ev c),
       match call_of user ev c with
       | Some kk => after (run_call now kk) c
       | None => c
       end).
Proof.
  unfold script.
  destruct ev as [|[|] text|[|] i|[|] i];
    cbn [call_of reruns run_call];
    effect_of FOOD; try (eexists; reflexivity);
    effect_of FESTIVAL; eexists; reflexivity.
Qed.

Lemma add_idea_votes now cat text c :
  votes (after (add_idea now cat text) c) = votes c.
Proof.
  unfold after.
  destruct (add_idea_cases now cat text c)
    as [[_ ->]|[(_ & _ & ->)|(_ & _ & ->)]]; reflexivity.
Qed.

Lemma toggle_vote_votes_rows now i u c v :
  In v (votes (after (toggle_vote now i u) c)) ->
  In v (votes c) \/ idea_id v = i.
Proof.
  unfold after, toggle_vote, bind, toggle_vote_act, toggle_vote_insert,
    try_except_IntegrityError_pass, insert_vote.
  destruct (select_vote_id i u c); simpl.
  - intros H. apply filter_In in H as [H _]. auto.
  - destruct (existsb _ _); simpl; auto.
    destruct (foreign_keys c && negb (idea_exists i c)); simpl; auto.
    intros H. apply in_app_or in H as [H|[<-|[]]]; auto.
Qed.

Lemma listed_exists k user i c :
  listed k user i c = true -> exists r, In r (ideas c) /\ id r = i.
Proof.
  unfold listed. intros H. apply existsb_exists in H as (e & He & Heq).
  apply Z.eqb_eq in Heq.
  apply fetch_ideas_In in He as (r & Hr & _ & ->). eauto.
Qed.

Lemma page_reachable_votes c :
  page_reachable c ->
  reachable c /\ Forall (fun v => 0 < idea_id v <= seq_ideas c) (votes c).
Proof.
  induction 1 as [|c Hp [Hr IH]|c user now ev Hp [Hr IH]].
  - split; [constructor | constructor].
  - split; [now constructor | exact IH].
  - destruct (script_effect user now ev c) as [els E].
    assert (Ea : after (script user now ev) c
                 = match call_of user ev c with
                   | Some kk => after (run_call now kk) c
                   | None => c
                   end)
      by (unfold after at 1; now rewrite E).
    rewrite Ea. clear E Ea.
    pose proof (reachable_consistent c Hr) as Hc.
    destruct (call_of user ev c) as [kk|] eqn:Ek; [|auto].
    split; [now constructor|].
    pose proof (run_call_seq_ideas now kk c) as Hseq.
    rewrite Forall_forall in *. intros v Hv.
    assert (Hold : In v (votes c) -> 0 < idea_id v
                   <= seq_ideas (after (run_call now kk) c))
      by (intros H; specialize (IH v H); lia).
    destruct ev as [|k text|k i|k i]; cbn [call_of] in Ek; try discriminate.
    + injection Ek as <-. apply Hold. cbn [run_call] in Hv.
      now rewrite add_idea_votes in Hv.
    + destruct (listed k user i c) eqn:El; [|discriminate].
      injection Ek as <-. cbn [run_call] in Hv.
      destruct (toggle_vote_votes_rows now i user c v Hv) as [H|H]; [auto|].
      destruct (listed_exists k user i c El) as (r & Hr' & Hid).
      pose proof (idea_ids_assigned c Hc) as Hids.
      rewrite Forall_forall in Hids. specialize (Hids r Hr'). lia.
    + destruct (listed k user i c) eqn:El; [|discriminate].
      injection Ek as <-. apply Hold. cbn [run_call] in Hv.
      now rewrite (delete_idea_pragma_off i c (pragma_off c Hc)) in Hv.
Qed.

End Script.

(** X14.  A run of the script never lets an exception of the database
    out and makes at most one call of a writing function: [add_idea]
    with the text of the form that was submitted, [toggle_vote] or
    [delete_idea] for the button that was pressed if the idea is in the
    list of that category drawn in this run, and nothing on a refresh
    or when the idea of the button is not in the list any more.  The
    run ends by [st.rerun()] exactly when an idea was added or a button
    of the list was pressed. *)
Theorem script_makes_one_call (user : Py.str) (now : Z) (ev : trigger)
        (c : conn) :
  exists els,
    script user now ev c
    = (Py.Return (els, reruns user ev c),
       match call_of user ev c with
       | Some kk => after (run_call now kk) c
       | None => c
       end).
Proof. apply script_effect. Qed.

(** X15.  In every state the sessions bring about through the page,
    every vote row carries an id that has been given to an idea: the
    page passes to [toggle_vote] ids of its list only. *)
Theorem page_votes_reference_assigned_ids (c : conn) (v : vote) :
  page_reachable c -> In v (votes c) ->
  reachable c /\ 0 < idea_id v <= seq_ideas c.
Proof.
  intros Hp Hv. destruct (page_reachable_votes c Hp) as [Hr Hf].
  split; [exact Hr|]. rewrite Forall_forall in Hf. now apply Hf.
Qed.

Lemma page_board_reachable : page_reachable page_board.
Proof. repeat apply page_run. apply page_new. Qed.

Lemma page_votes_reference_assigned_ids_witness :
  page_reachable page_board
  /\ In (mk_vote 2 1 u2 12) (votes page_board)
  /\ 0 < idea_id (mk_vote 2 1 u2 12) <= seq_ideas page_board.
Proof.
  assert (Hin : In (mk_vote 2 1 u2 12) (votes page_board))
    by (right; left; reflexivity).
  split; [exact page_board_reachable|]. split; [exact Hin|].
  exact (proj2 (page_votes_reference_assigned_ids
                  page_board _ page_board_reachable Hin)).
Defined.

(** X16.  Through the page a new idea always starts without votes: in
    every state the sessions bring about through the page, after a
    session submits text that is not blank in the form of a category,
    every session finds the idea in the list of that category with its
    trimmed text, the clock reading, 0 votes and [i_voted] false. *)
Theorem page_new_idea_has_no_vote (c : conn) (user u' : Py.str) (now : Z)
        (k : category_code) (text : Py.str) :
  page_reachable c ->
  forallb Py.isspace text = false ->
  In (mk_item (next_id id (seq_ideas c) (ideas c)) (Py.strip text) 0 now
              false)
     (fetch_ideas (code k) u' (after (script user now (Submit k text)) c)).
Proof.
  intros Hp Hb. destruct (page_reachable_votes c Hp) as [Hr Hv].
  pose proof (reachable_consistent c Hr) as Hc.
  destruct (script_effect user now (Submit k text) c) as [els E].
  unfold after at 1. rewrite E. cbn [snd call_of run_call].
  assert (Hs : Py.strip (Py.or_empty (Some text)) <> []).
  { intros H. apply strip_nil_iff in H. simpl in H. congruence. }
  destruct (add_idea_outcome k now (Some text) u' c Hc) as [_ H].
  destruct (H Hs) as (_ & _ & _ & Hseq & _ & Hin). clear H.
  set (new := next_id id (seq_ideas c) (ideas c)) in *.
  assert (Hnone : ~ In new (map idea_id (votes c))).
  { intros H. apply in_map_iff in H as (v & Hid & Hin').
    rewrite Forall_forall in Hv. specialize (Hv v Hin'). lia. }
  rewrite (count_votes_zero new (votes c) Hnone) in Hin.
  replace (has_voted new u' c) with false in Hin; [exact Hin|].
  symmetry. destruct (has_voted new u' c) eqn:Ev; [|reflexivity].
  apply has_voted_iff in Ev as (v & Hin' & Hid & _).
  exfalso. apply Hnone. rewrite <- Hid. now apply in_map.
Qed.

Lemma page_new_idea_has_no_vote_witness :
  page_reachable page_board
  /\ forallb Py.isspace (Py.lit " tacos ") = false
  /\ In (mk_item 2 (Py.lit "tacos") 0 20 false)
        (fetch_ideas (code FOOD) u1
           (after (script u2 20 (Submit FOOD (Py.lit " tacos ")))
                  page_board)).
Proof.
  split; [exact page_board_reachable|]. split; [reflexivity|].
  exact (page_new_idea_has_no_vote page_board u2 u1 20 FOOD
           (Py.lit " tacos ") page_board_reachable eq_refl).
Defined.

(** C6.  In every state the sessions bring about through the page,
    [add_idea] with one of the two categories returns [False] exactly
    when the text trims to the empty string, and then inserts no row
    and changes nothing; otherwise it returns [True], appends exactly
    one row to the ideas table, with an id that no idea has or has had,
    the category, the trimmed text and the clock reading, leaves the
    votes table as it is, and the new idea is in the list of its
    category, for every session, with 0 votes. *)
Theorem add_idea_accepts_or_refuses (c : conn) (k : category_code) (now : Z)
        (text : option Py.str) (u : Py.str) :
  page_reachable c ->
  let new := next_id id (seq_ideas c) (ideas c) in
  let c' := after (add_idea now (code k) text) c in
  (result (add_idea now (code k) text) c = Py.Return (Py.Bool false)
   <-> Py.strip (Py.or_empty text) = [])
  /\ (Py.strip (Py.or_empty text) = [] -> c' = c)
  /\ (Py.strip (Py.or_empty text) <> [] ->
      result (add_idea now (code k) text) c = Py.Return (Py.Bool true)
      /\ ideas c' = ideas c ++ [mk_idea new (code k)
                                        (Py.strip (Py.or_empty text)) 0 now]
      /\ votes c' = votes c
      /\ ~ In new (map id (ideas c))
      /\ seq_ideas c < new
      /\ In (mk_item new (Py.strip (Py.or_empty text)) 0 now false)
            (fetch_ideas (code k) u c')).
Proof.
  intros Hp new c'. destruct (page_reachable_votes c Hp) as [Hr Hv].
  pose proof (reachable_consistent c Hr) as Hc.
  pose proof (code_checked k) as Hk.
  assert (Hnone : ~ In new (map idea_id (votes c))).
  { intros H. apply in_map_iff in H as (v & Hid & Hin).
    rewrite Forall_forall in Hv. specialize (Hv v Hin).
    pose proof (next_id_above id (seq_ideas c) (ideas c)) as [Hseq _].
    unfold new in Hid. lia. }
  assert (Hnot : has_voted new u c = false).
  { destruct (has_voted new u c) eqn:Ev; [|reflexivity].
    apply has_voted_iff in Ev as (v & Hin & Hid & _).
    exfalso. apply Hnone. rewrite <- Hid. now apply in_map. }
  destruct (add_idea_outcome k now text u c Hc) as [_ Hok].
  subst c'. unfold new in *. clear new. unfold result, after in *.
  destruct (add_idea_cases now (code k) text c)
    as [[E Ea]|[(E & Ec & _)|(E & _ & Ea)]]; [| congruence |].
  - rewrite Ea. simpl. split; [tauto|]. split; [reflexivity | congruence].
  - split; [|split; [congruence|]].
    + rewrite Ea. simpl. split; [discriminate | congruence].
    + intros _. destruct (Hok E) as (_ & _ & _ & Hseq & _ & Hin).
      rewrite (count_votes_zero _ _ Hnone), Hnot in Hin.
      rewrite Ea in *. simpl. repeat split; auto.
      apply next_id_fresh.
Qed.

Lemma add_idea_accepts_or_refuses_witness :
  page_reachable page_board
  /\ Py.strip (Py.or_empty (Some (Py.lit " tacos "))) <> []
  /\ In (mk_item 2 (Py.lit "tacos") 0 20 false)
        (fetch_ideas (code FOOD) u1
           (after (add_idea 20 (code FOOD) (Some (Py.lit " tacos ")))
                  page_board)).
Proof.
  assert (Hs : Py.strip (Py.or_empty (Some (Py.lit " tacos "))) <> [])
    by discriminate.
  split; [exact page_board_reachable|]. split; [exact Hs|].
  destruct (add_idea_accepts_or_refuses
              page_board FOOD 20 (Some (Py.lit " tacos ")) u1
              page_board_reachable) as (_ & _ & H).
  exact (proj2 (proj2 (proj2 (proj2 (proj2 (H Hs)))))).
Defined.

Section Feedback.

Lemma render_rows_no_feedback k user now ev items c els r c' :
  render_rows k user now ev items c = (Py.Return (els, r), c') ->
  filter is_feedback els = [].
Proof.
  revert c els r c'. induction items as [|e rest IH]; intros c els r c';
    cbn [render_rows].
  - now intros [= <- _ _].
  - destruct (vote_pressed ev k (item_id e)).
    { unfold bind. rewrite toggle_vote_pair. now intros [= <- _ _]. }
    destruct (delete_pressed ev k (item_id e)).
    { now intros [= <- _ _]. }
    unfold bind.
    destruct (render_rows k user now ev rest c) as [[[tl r']|x] c1] eqn:Er;
      [|discriminate].
    intros [= <- _ _]. cbn. now apply (IH c tl r' c1).
Qed.

Lemma render_list_no_feedback k user now ev c els r c' :
  render_list k user now ev c = (Py.Return (els, r), c') ->
  filter is_feedback els = [].
Proof.
  unfold render_list.
  destruct (fetch_ideas (code k) user c) as [|e rest].
  - now intros [= <- _ _].
  - apply render_rows_no_feedback.
Qed.

Lemma render_category_feedback k user now ev c els r c' :
  render_category k user now ev c = (Py.Return (els, r), c') ->
  filter is_feedback els
  = match submitted ev k with
    | Some text => [if Py.truthy (Py.strip text) then Toast else Warning]
    | None => []
    end.
Proof.
  unfold render_category, bind at 1. rewrite render_form_effect.
  unfold blank. cbn [Py.or_empty].
  destruct (submitted ev k) as [text|];
    [destruct (Py.truthy (Py.strip text)); cbn [negb fst snd]|cbn [fst snd]].
  - now intros [= <- _ _].
  - unfold bind.
    destruct (render_list k user now ev c) as [[[rows r']|x] c1] eqn:El;
      [|discriminate].
    intros [= <- _ _]. cbn.
    now rewrite (render_list_no_feedback _ _ _ _ _ _ _ _ El).
  - unfold bind.
    destruct (render_list k user now ev c) as [[[rows r']|x] c1] eqn:El;
      [|discriminate].
    intros [= <- _ _]. cbn.
    now rewrite (render_list_no_feedback _ _ _ _ _ _ _ _ El).
Qed.

Lemma script_feedback user now ev c els r c' :
  script user now ev c = (Py.Return (els, r), c') ->
  filter is_feedback els
  = match ev with
    | Submit _ text => [if Py.truthy (Py.strip text) then Toast else Warning]
    | _ => []
    end.
Proof.
  unfold script, bind at 1.
  destruct (render_category FOOD user now ev c) as [[[l1 r1]|x] c1] eqn:E1;
    [|discriminate].
  pose proof E1 as E1'.
  apply render_category_feedback in E1. cbn [fst snd].
  destruct r1.
  - intros [= <- _ _]. cbn [filter is_feedback].
    rewrite E1. destruct ev as [|[|] text| |]; try reflexivity.
    (* a rerun in the food section cannot come from the festival form *)
    exfalso.
    destruct (render_category_effect FOOD user now (Submit FESTIVAL text) c)
      as [els0 E0].
    cbn [submitted pressed same_code] in E0. congruence.
  - unfold bind.
    destruct (render_category FESTIVAL user now ev c1)
      as [[[l2 r2]|x] c2] eqn:E2; [|discriminate].
    apply render_category_feedback in E2. cbn [fst snd].
    assert (F : filter is_feedback (Title :: l1 ++ l2 ++ [Footer])
                = filter is_feedback l1 ++ filter is_feedback l2)
      by (cbn; rewrite !filter_app; cbn; now rewrite app_nil_r).
    assert (F' : filter is_feedback (Title :: l1 ++ l2)
                 = filter is_feedback l1 ++ filter is_feedback l2)
      by (cbn; now rewrite !filter_app).
    destruct r2; intros [= <- _ _]; rewrite ?F, ?F', E1, E2;
      destruct ev as [|[|] text| |]; reflexivity.
Qed.

End Feedback.

(** X17.  A run of the script answers a submitted form with exactly one
    message: the toast, and the run ends by [st.rerun()], when the text
    was accepted; the warning, and the run goes on to draw the lists,
    when the text was blank.  A run that no form caused draws neither
    message. *)
Theorem script_answers_the_form (user : Py.str) (now : Z) (ev : trigger)
        (c : conn) :
  exists els,
    result (script user now ev) c = Py.Return (els, reruns user ev c)
    /\ filter is_feedback els
       = match ev with
         | Submit _ text =>
             [if Py.truthy (Py.strip text) then Toast else Warning]
         | _ => []
         end.
Proof.
  destruct (script_effect user now ev c) as [els E]. exists els.
  split; [unfold result; now rewrite E|].
  exact (script_feedback user now ev c _ _ _ E).
Qed.

Section Drawing.

Lemma render_rows_quiet k user now ev items c :
  pressed user ev k = None ->
  render_rows k user now ev items c
  = (Py.Return (flat_map (row_elements k) items, false), c).
Proof.
  intros Hp. induction items as [|e rest IH]; cbn [render_rows flat_map].
  - reflexivity.
  - assert (Hv : vote_pressed ev k (item_id e) = false).
    { destruct ev as [| |k' i|]; cbn in *; try reflexivity.
      destruct (same_code k' k); [discriminate | reflexivity]. }
    assert (Hd : delete_pressed ev k (item_id e) = false).
    { destruct ev as [| | |k' i]; cbn in *; try reflexivity.
      destruct (same_code k' k); [discriminate | reflexivity]. }
    rewrite Hv, Hd. unfold bind. rewrite IH. reflexivity.
Qed.

Lemma render_category_quiet k user now ev c :
  submitted ev k = None -> pressed user ev k = None ->
  render_category k user now ev c
  = (Py.Return (section_elements k user c, false), c).
Proof.
  intros Hs Hp. unfold render_category, bind at 1.
  rewrite render_form_effect, Hs. cbn [fst snd]. unfold bind, render_list.
  unfold section_elements.
  destruct (fetch_ideas (code k) user c) as [|e rest] eqn:E.
  - reflexivity.
  - now rewrite (render_rows_quiet k user now ev _ c Hp).
Qed.

Lemma script_refresh user now c :
  script user now Refresh c
  = (Py.Return (Title :: section_elements FOOD user c
                  ++ section_elements FESTIVAL user c ++ [Footer], false),
     c).
Proof.
  unfold script, bind at 1.
  rewrite render_category_quiet by reflexivity. cbn [fst snd].
  unfold bind. rewrite render_category_quiet by reflexivity.
  reflexivity.
Qed.

Lemma in_section_elements k user c e :
  In e (fetch_ideas (code k) user c) ->
  incl (row_elements k e) (section_elements k user c).
Proof.
  intros He el Hel. unfold section_elements. apply in_or_app. right.
  destruct (fetch_ideas (code k) user c) as [|x rest]; [contradiction|].
  apply in_flat_map. eauto.
Qed.

Lemma vote_button_in_section k k' user c i b :
  In (VoteButton k' i b) (section_elements k user c) ->
  k' = k /\ exists e, In e (fetch_ideas (code k) user c)
                      /\ item_id e = i /\ item_i_voted e = b.
Proof.
  unfold section_elements. intros H.
  apply in_app_or in H as [H|H].
  - cbn in H. repeat destruct H as [H|H]; try discriminate. contradiction.
  - destruct (fetch_ideas (code k) user c) as [|x rest].
    + destruct H as [H|[]]. discriminate.
    + apply in_flat_map in H as (e & He & Hin).
      cbn in Hin. repeat destruct Hin as [Hin|Hin]; try discriminate;
        try contradiction.
      injection Hin as <- <- <-. eauto.
Qed.

End Drawing.

(** X18.  A run of the script on a refresh leaves the database as it is
    and does not end by [st.rerun()].  In a reachable state it draws
    every idea of the ideas table once, under its category: its
    content, its number of votes, a vote button that tells whether the
    session holds a vote on it, and a delete button; and every vote
    button it draws belongs to an idea of the table. *)
Theorem refresh_draws_every_idea (user : Py.str) (now : Z) (c : conn) :
  reachable c ->
  exists els,
    script user now Refresh c = (Py.Return (els, false), c)
    /\ (forall r,
           In r (ideas c) ->
           exists k,
             category r = code k
             /\ incl [Content (content r);
                      Votes (count_votes (id r) (votes c));
                      VoteButton k (id r) (has_voted (id r) user c);
                      DeleteButton k (id r)] els)
    /\ (forall k i b,
           In (VoteButton k i b) els ->
           exists r, In r (ideas c) /\ id r = i /\ category r = code k
                     /\ b = has_voted i user c).
Proof.
  intros Hr. pose proof (reachable_consistent c Hr) as Hc.
  eexists. split; [apply script_refresh|]. split.
  - intros r Hin.
    pose proof (categories_checked c Hc) as Hcat.
    rewrite Forall_forall in Hcat. specialize (Hcat r Hin).
    apply category_check_iff in Hcat.
    assert (Hk : exists k, category r = code k)
      by (destruct Hcat as [H|H]; [exists FOOD | exists FESTIVAL]; exact H).
    destruct Hk as [k Hk]. exists k. split; [exact Hk|].
    pose proof (fetch_ideas_lists (code k) user c r Hin Hk) as He.
    apply (in_section_elements k user c) in He.
    intros el Hel.
    assert (Hs : In el (section_elements k user c)).
    { apply He. cbn in Hel. cbn.
      repeat destruct Hel as [<-|Hel]; auto 10; contradiction. }
    right. destruct k.
    + apply in_or_app. now left.
    + apply in_or_app. right. apply in_or_app. now left.
  - intros k i b H. destruct H as [H|H]; [discriminate|].
    assert (Hs : exists k', In (VoteButton k i b)
                               (section_elements k' user c)).
    { apply in_app_or in H as [H|H]; [eauto|].
      apply in_app_or in H as [H|[H|[]]]; [eauto | discriminate]. }
    destruct Hs as [k' Hs].
    apply vote_button_in_section in Hs as (-> & e & He & <- & <-).
    apply fetch_ideas_In in He as (r & Hin & Hcat & ->). simpl. eauto.
Qed.

Lemma refresh_draws_every_idea_witness :
  reachable voted_idea
  /\ exists els,
       script u1 20 Refresh voted_idea = (Py.Return (els, false), voted_idea)
       /\ In (VoteButton FOOD 1 true) els.
Proof.
  assert (H : reachable voted_idea) by apply reachable_run_calls, reach_new.
  split; [exact H|].
  destruct (refresh_draws_every_idea u1 20 voted_idea H)
    as (els & E & Hall & _).
  exists els. split; [exact E|].
  destruct (Hall (mk_idea 1 food pizza 0 10) (or_introl eq_refl))
    as (k & Hk & Hincl).
  assert (k = FOOD) by (destruct k; [reflexivity | discriminate]).
  subst k. apply Hincl. right. right. left. reflexivity.
Defined.
